(** * droughtwatch: the record parser, class weights and training set-up of [train.py]

    A shallow embedding of the data-ingestion and configuration logic of
    [train.py]: the TFRecord schema and the per-record transform [_parse_]
    (decode, slice, reshape, stack, one-hot), the class-weight matrix, the
    steps-per-epoch arithmetic and the two model builders.

    Values follow the program: band payloads are byte strings, decoded
    samples are integers in [0, 255] held in a row-major tensor, Python
    dictionaries are finite maps keyed by strings, Python floats are binary64
    floats, and every call that can raise returns an [option]. *)

From Stdlib Require Import ZArith Lia Floats.
From Stdlib Require Import Strings.Byte Strings.Ascii.
From stdpp Require Import gmap strings list fin_maps.

#[local] Set Warnings "-inexact-float".
Local Open Scope Z_scope.

(** ** Module constants *)

Definition NUM_CLASSES : nat := 4.
Definition NUM_TRAIN : Z := 86317.
Definition NUM_VAL : Z := 10778.
Definition IMG_DIM : nat := 65.
Definition NUM_BANDS : nat := 7.

Definition MODEL_NAME : string := EmptyString.
Definition DATA_PATH : string := "data".
Definition BATCH_SIZE : Z := 64.
Definition EPOCHS : Z := 10.
Definition L1_SIZE : Z := 32.
Definition L2_SIZE : Z := 64.
Definition L3_SIZE : Z := 128.
Definition FC1_SIZE : Z := 128.
Definition FC2_SIZE : Z := 50.
Definition DROPOUT_1 : float := 0.2%float.
Definition DROPOUT_2 : float := 0.2%float.
Definition OPTIMIZER : string := "Adam".
Definition LEARNING_RATE : float := 0.001%float.

(** ** Tensors

    A dense tensor is its shape and its elements in row-major order, as the
    library stores them. *)

Record tensor (A : Type) : Type := Tensor { shape : list nat; data : list A }.
Arguments Tensor {A} shape data.
Arguments shape {A} t.
Arguments data {A} t.

Definition numel (sh : list nat) : nat := foldr Nat.mul 1%nat sh.

(** [tf.decode_raw(t, tf.uint8)] on a tensor of byte strings: the strings
    must have one length; each byte becomes one sample along a new last
    axis. *)
Definition byte_val (b : byte) : Z := Z.of_N (Byte.to_N b).

Definition decode_raw_uint8 (t : tensor (list byte)) : option (tensor Z) :=
  match data t with
  | [] => Some (Tensor (shape t ++ [0%nat]) [])
  | bs :: rest =>
      if forallb (fun b => Nat.eqb (length b) (length bs)) rest
      then Some (Tensor (shape t ++ [length bs]) (flat_map (fmap byte_val) (data t)))
      else None
  end.

(** [t[:n]]: the first [n] entries along the first axis, fewer when the axis
    is shorter; a scalar cannot be sliced. *)
Definition slice_prefix {A} (t : tensor A) (n : nat) : option (tensor A) :=
  match shape t with
  | [] => None
  | d0 :: rest =>
      Some (Tensor (Nat.min n d0 :: rest) (take (Nat.min n d0 * numel rest) (data t)))
  end.

(** [tf.reshape(t, shape)]: the element count has to match. *)
Definition reshape {A} (t : tensor A) (sh : list nat) : option (tensor A) :=
  if decide (numel sh = length (data t)) then Some (Tensor sh (data t)) else None.

(** One block of [c] consecutive elements, the [p]-th of the data. *)
Definition chunk {A} (c p : nat) (d : list A) : list A := take c (drop (p * c) d).

Definition last_dim (sh : list nat) : nat := List.last sh 0%nat.
Definition lead_dims (sh : list nat) : list nat := removelast sh.

(** [tf.concat(values, -1)]: an empty list is refused and a single tensor is
    returned as it is; two or more must all have rank at least one and the
    same leading dimensions, and the result interleaves, position by
    position, their blocks along the last axis. *)
Definition concat_last {A} (ts : list (tensor A)) : option (tensor A) :=
  match ts with
  | [] => None
  | [t] => Some t
  | t0 :: _ =>
      if decide (Forall (fun t => shape t <> [] /\ lead_dims (shape t) = lead_dims (shape t0)) ts)
      then Some (Tensor (lead_dims (shape t0) ++ [sum_list (last_dim ∘ shape <$> ts)])
                        (flat_map (fun p => flat_map (fun t => chunk (last_dim (shape t)) p (data t)) ts)
                                  (seq 0 (numel (lead_dims (shape t0))))))
      else None
  end.

(** The slice [t[..., i:i+1]]: channel [i] of a tensor, kept as a last axis
    of size one. *)
Definition channel {A} (t : tensor A) (i : nat) : tensor A :=
  Tensor (lead_dims (shape t) ++ [1%nat])
         (flat_map (fun p => take 1 (drop (p * last_dim (shape t) + i) (data t)))
                   (seq 0 (numel (lead_dims (shape t))))).

(** [tf.cast(t, tf.int32)] from 64-bit integers: the low 32 bits, signed. *)
Definition wrap_int32 (z : Z) : Z := (z + 2 ^ 31) mod 2 ^ 32 - 2 ^ 31.

Definition cast_int32 (t : tensor Z) : tensor Z := Tensor (shape t) (wrap_int32 <$> data t).

(** [tf.one_hot(indices, depth)]: a new last axis of size [depth], with
    the float [1.0] where the position equals the index and [0.0] elsewhere;
    an index outside [0, depth) matches no position. *)
Definition one_hot_row (i : Z) (depth : nat) : list float :=
  (fun j => if Z.eqb (Z.of_nat j) i then 1%float else 0%float) <$> seq 0 depth.

Definition one_hot (indices : tensor Z) (depth : nat) : tensor float :=
  Tensor (shape indices ++ [depth]) (flat_map (fun i => one_hot_row i depth) (data indices)).

(** ** The record schema *)

(** A feature of a record, as the record format stores it: a list of byte
    strings, of floats or of 64-bit integers.  The wire encoding is not
    modelled: a serialized example is the feature map it encodes. *)
Inductive feature : Type :=
  | BytesList (vs : list (list byte))
  | FloatList (vs : list float)
  | Int64List (vs : list Z).

Inductive dtype : Type := tf_string | tf_int64 | tf_float32.

#[global] Instance dtype_eq_dec : EqDecision dtype.
Proof. solve_decision. Defined.

Record FixedLenFeature : Type := { fl_shape : list nat; fl_dtype : dtype }.

(** A parsed feature: a dense tensor of the declared type. *)
Inductive value : Type :=
  | VString (t : tensor (list byte))
  | VInt64 (t : tensor Z)
  | VFloat (t : tensor float).

(** The data field specification for the records. *)
Definition features_items : list (string * FixedLenFeature) :=
  [ ("B1",  {| fl_shape := []; fl_dtype := tf_string |});
    ("B2",  {| fl_shape := []; fl_dtype := tf_string |});
    ("B3",  {| fl_shape := []; fl_dtype := tf_string |});
    ("B4",  {| fl_shape := []; fl_dtype := tf_string |});
    ("B5",  {| fl_shape := []; fl_dtype := tf_string |});
    ("B6",  {| fl_shape := []; fl_dtype := tf_string |});
    ("B7",  {| fl_shape := []; fl_dtype := tf_string |});
    ("B8",  {| fl_shape := []; fl_dtype := tf_string |});
    ("B9",  {| fl_shape := []; fl_dtype := tf_string |});
    ("B10", {| fl_shape := []; fl_dtype := tf_string |});
    ("B11", {| fl_shape := []; fl_dtype := tf_string |});
    ("label", {| fl_shape := []; fl_dtype := tf_int64 |}) ].

Definition features : gmap string FixedLenFeature := list_to_map features_items.

(** The band fields of a schema are its byte-string fields. *)
Definition band_fields (fs : gmap string FixedLenFeature) : gmap string FixedLenFeature :=
  filter (fun kv => fl_dtype kv.2 = tf_string) fs.

Definition label_fields (fs : gmap string FixedLenFeature) : gmap string FixedLenFeature :=
  filter (fun kv => fl_dtype kv.2 = tf_int64) fs.

(** One field of [tf.parse_single_example]: a fixed-length feature without
    a default must be present, of the declared type, and hold as many
    values as the declared shape has elements. *)
Definition parse_feature (spec : FixedLenFeature) (f : option feature) : option value :=
  match f, fl_dtype spec with
  | Some (BytesList vs), tf_string =>
      if decide (length vs = numel (fl_shape spec))
      then Some (VString (Tensor (fl_shape spec) vs)) else None
  | Some (Int64List vs), tf_int64 =>
      if decide (length vs = numel (fl_shape spec))
      then Some (VInt64 (Tensor (fl_shape spec) vs)) else None
  | Some (FloatList vs), tf_float32 =>
      if decide (length vs = numel (fl_shape spec))
      then Some (VFloat (Tensor (fl_shape spec) vs)) else None
  | _, _ => None
  end.

(** [tf.parse_single_example]: every field of the schema is parsed, and the
    call fails when one of them cannot be; fields of the record outside the
    schema are dropped. *)
Definition parse_single_example (serialized : gmap string feature)
    (fs : gmap string FixedLenFeature) : option (gmap string value) :=
  if decide (map_Forall (fun k spec => is_Some (parse_feature spec (serialized !! k))) fs)
  then Some (map_imap (fun k spec => parse_feature spec (serialized !! k)) fs)
  else None.

(** ** The record parser *)

(** [getband] of [_parse_]; it is handed [example[key]], which has to be a
    string tensor for [tf.decode_raw]. *)
Definition getband (example_key : value) : option (tensor Z) :=
  match example_key with
  | VString t =>
      img ← decode_raw_uint8 t;
      sl ← slice_prefix img (IMG_DIM ^ 2);
      reshape sl [IMG_DIM; IMG_DIM; 1%nat]
  | _ => None
  end.

Definition default_keylist : list string := ["B2"; "B3"; "B4"; "B5"; "B6"; "B7"; "B8"].

(** Lines 119-122 of [_parse_]: the selected bands, decoded in list order
    and joined along the channel axis.  [example[key]] raises on a key the
    parsed example does not have. *)
Definition stack_bands (example : gmap string value) (keylist : list string)
    : option (tensor Z) :=
  bandlist ← mapM (fun key => example !! key ≫= getband) keylist;
  concat_last bandlist.

(** Lines 124-125 of [_parse_]: the label, cast and one-hot encoded. *)
Definition encode_label (label : tensor Z) : tensor float :=
  one_hot (cast_int32 label) NUM_CLASSES.

(** [_parse_]: the per-record transform.  The result is the pair of the
    dictionary [{'image': image}] and the one-hot label. *)
Definition _parse_ (serialized_example : gmap string feature) (keylist : list string)
    : option (gmap string (tensor Z) * tensor float) :=
  example ← parse_single_example serialized_example features;
  image ← stack_bands example keylist;
  label ← match example !! "label" with
          | Some (VInt64 t) => Some (encode_label t)
          | Some (VFloat _) | Some (VString _) | None => None
          end;
  Some ({[ "image" := image ]}, label).

(** ** The class-weight matrix *)

(** A two-dimensional array of floats: its shape and its rows. *)
Record ndarray : Type := NdArray { nd_shape : nat * nat; nd_rows : list (list float) }.

(** [np.zeros((n, m))]; a negative dimension is refused. *)
Definition np_zeros (n : Z) (m : nat) : option ndarray :=
  if Z.leb 0 n
  then Some (NdArray (Z.to_nat n, m) (replicate (Z.to_nat n) (replicate m 0%float)))
  else None.

(** [a[:, j] += w]: an index error when [j] is not a column of [a]. *)
Definition col_iadd (a : ndarray) (j : nat) (w : float) : option ndarray :=
  if decide (j < (nd_shape a).2)%nat
  then Some (NdArray (nd_shape a) (alter (fun x => (x + w)%float) j <$> nd_rows a))
  else None.

(** The body of [class_weights_matrix], with the two module constants it
    reads as parameters. *)
Definition class_weights_matrix_with (num_train : Z) (num_classes : nat) : option ndarray :=
  class_weights ← np_zeros num_train num_classes;
  class_weights ← col_iadd class_weights 0 1.0%float;
  class_weights ← col_iadd class_weights 1 4.0%float;
  class_weights ← col_iadd class_weights 2 4.0%float;
  class_weights ← col_iadd class_weights 3 6.0%float;
  Some class_weights.

Definition class_weights_matrix : option ndarray :=
  class_weights_matrix_with NUM_TRAIN NUM_CLASSES.

(** ** Steps per epoch *)

(** [float(n)] for a Python integer: the nearest binary64 float, ties to
    even, and an overflow error beyond the largest float. *)
Definition py_float (n : Z) : option float :=
  match binary_normalize prec emax n 0 false with
  | S754_infinity _ => None
  | sf => Some (SF2Prim sf)
  end.

(** [x / y] on floats: division by zero raises. *)
Definition py_truediv (x y : float) : option float :=
  if PrimFloat.eqb y 0%float then None else Some (x / y)%float.

(** The largest integer not above a float given by sign, mantissa and
    exponent. *)
Definition sf_floor (x : spec_float) : option Z :=
  match x with
  | S754_zero _ => Some 0
  | S754_finite s m e => Some (Z.shiftl (cond_Zopp s (Z.pos m)) e)
  | S754_infinity _ | S754_nan => None
  end.

(** [math.floor(x)]: the largest integer not above [x]; a not-a-number or an
    infinity raises. *)
Definition math_floor (x : float) : option Z := sf_floor (Prim2SF x).

(** [int(math.floor(float(count) / float(batch_size)))]. *)
Definition steps_per_epoch (count batch_size : Z) : option Z :=
  c ← py_float count;
  b ← py_float batch_size;
  q ← py_truediv c b;
  math_floor q.

(** ** Hyperparameters and model builders *)

(** The namespace the argument parser returns. *)
Record args : Type := Args {
  model_name : string;
  data_path : string;
  batch_size : Z;
  epochs : Z;
  l1_size : Z;
  l2_size : Z;
  l3_size : Z;
  fc1_size : Z;
  fc2_size : Z;
  dropout_1 : float;
  dropout_2 : float;
  optimizer : string;
  learning_rate : float;
  dry_run : bool
}.

Definition default_args : args :=
  Args MODEL_NAME DATA_PATH BATCH_SIZE EPOCHS L1_SIZE L2_SIZE L3_SIZE FC1_SIZE FC2_SIZE
       DROPOUT_1 DROPOUT_2 OPTIMIZER LEARNING_RATE false.

(** Lines 207-208 of [train_cnn]. *)
Definition train_steps_per_epoch (a : args) : option Z := steps_per_epoch NUM_TRAIN (batch_size a).
Definition val_steps_per_epoch (a : args) : option Z := steps_per_epoch NUM_VAL (batch_size a).

(** A model builder is modelled by what it hands to the library: the layers
    it adds, in order, and the arguments of [compile].  A Python object
    reached by attribute access is named by its dotted path. *)
Inductive activation : Type := relu | sigmoid | softmax.

Inductive layer : Type :=
  | InputLayer (input_shape : list nat) (name : string)
  | Conv2D (filters : Z) (kernel_size : nat * nat) (act : activation)
  | MaxPooling2D (pool_size : nat * nat)
  | Dropout (rate : float)
  | Flatten
  | Dense (units : Z) (act : activation).

Inductive loss : Type := mean_squared_error | categorical_crossentropy.

(** An optimizer instance: the class that was called and the keyword
    arguments of the call; what is not passed keeps the library's default. *)
Record optimizer_instance : Type :=
  OptimizerInstance { opt_class : list string; opt_kwargs : list (string * float) }.

Record compiled_model : Type := CompiledModel {
  m_layers : list layer;
  m_loss : loss;
  m_optimizer : optimizer_instance;
  m_metrics : list string
}.

Definition keras_Adam : list string := ["tensorflow"; "keras"; "optimizers"; "Adam"].

(** [s.split(sep)] for a one-character separator. *)
Fixpoint split_on (sep : ascii) (s : string) : list string :=
  match s with
  | EmptyString => [EmptyString]
  | String c rest =>
      if Ascii.eqb c sep then EmptyString :: split_on sep rest
      else match split_on sep rest with
           | w :: ws => String c w :: ws
           | [] => [String c EmptyString]
           end
  end.

Section Loader.
(** The Python namespace the loader walks: which top-level modules can be
    imported, which attributes an object has, and which classes can be
    called with a given set of keyword names. *)
Variable importable : string -> bool.
Variable has_attr : list string -> string -> bool.
Variable callable_with : list string -> list string -> bool.

Definition load_class_from_module (module_name : string) : option (list string) :=
  match split_on "." module_name with
  | [] => None
  | c0 :: comps =>
      if importable c0
      then foldl (fun found comp =>
                    m ← found; if has_attr m comp then Some (m ++ [comp]) else None)
                 (Some [c0]) comps
      else None
  end.

Definition load_optimizer (optimizer : string) (learning_rate : float)
    : option optimizer_instance :=
  let optimizer_path := ("tensorflow.keras.optimizers." +:+ optimizer)%string in
  optimizer_module ← load_class_from_module optimizer_path;
  if callable_with optimizer_module ["lr"%string]
  then Some (OptimizerInstance optimizer_module [("lr"%string, learning_rate)])
  else None.

Definition build_classification_model (a : args) : option compiled_model :=
  let model :=
    [ InputLayer [IMG_DIM; IMG_DIM; NUM_BANDS] "image";
      Conv2D (l1_size a) (3, 3)%nat relu;
      MaxPooling2D (2, 2)%nat;
      Conv2D (l2_size a) (3, 3)%nat relu;
      Conv2D (l2_size a) (3, 3)%nat relu;
      MaxPooling2D (2, 2)%nat;
      Dropout (dropout_1 a);
      Conv2D (l3_size a) (3, 3)%nat relu;
      Conv2D (l3_size a) (3, 3)%nat relu;
      MaxPooling2D (2, 2)%nat;
      Dropout (dropout_2 a);
      Flatten;
      Dense (fc1_size a) relu;
      Dense (fc2_size a) relu;
      Dense (Z.of_nat NUM_CLASSES) softmax ] in
  lr_optimizer ← load_optimizer (optimizer a) (learning_rate a);
  Some (CompiledModel model categorical_crossentropy lr_optimizer ["accuracy"%string]).
End Loader.

Definition build_regression_model (a : args) : compiled_model :=
  let model :=
    [ InputLayer [IMG_DIM; IMG_DIM; NUM_BANDS] "image";
      Conv2D (l1_size a) (5, 5)%nat relu;
      MaxPooling2D (2, 2)%nat;
      Conv2D (l2_size a) (3, 3)%nat relu;
      MaxPooling2D (2, 2)%nat;
      Flatten;
      Dense (fc1_size a) relu;
      Dense 1 sigmoid ] in
  CompiledModel model mean_squared_error (OptimizerInstance keras_Adam []) ["mse"%string].

(** ** Listing the record files *)

(** [s.startswith(t)] and [s.endswith(t)]. *)
Definition startswith (s t : string) : bool := String.prefix t s.

Fixpoint endswith (s t : string) : bool :=
  String.eqb s t
  || match s with
     | EmptyString => false
     | String _ s' => endswith s' t
     end.

(** [os.path.join(a, b)] on a POSIX system: an absolute [b] replaces [a];
    otherwise [b] is appended, after a separator unless [a] is empty or
    already ends with one. *)
Definition os_path_join (a b : string) : string :=
  if startswith b "/" then b
  else if String.eqb a "" || endswith a "/" then a +:+ b
  else a +:+ "/" +:+ b.

Section FileSystem.
(** The directories of the file system: [os.listdir] gives the names in a
    directory, and raises when there is no such directory. *)
Variable listdir : string -> option (list string).

Definition file_list_from_folder (folder data_path : string) : option (list string) :=
  let folderpath := os_path_join data_path folder in
  names ← listdir folderpath;
  Some (foldl (fun filelist filename =>
                 if startswith filename "part-" && negb (endswith filename "gstmp")
                 then filelist ++ [os_path_join folderpath filename]
                 else filelist)
              [] names).

Definition load_data (data_path : string) : option (list string * list string) :=
  train ← file_list_from_folder "train" data_path;
  val ← file_list_from_folder "val" data_path;
  Some (train, val).
End FileSystem.

(** ** Notions used in the statements *)

(** The band payload of a record, when the field holds one byte string. *)
Definition payload_of (r : gmap string feature) (key : string) : option (list byte) :=
  match r !! key with
  | Some (BytesList [bs]) => Some bs
  | _ => None
  end.

(** A scalar string tensor, as the parser hands a band to [getband]. *)
Definition scalar_string (bs : list byte) : value := VString (Tensor [] [bs]).

(** A single-channel plane of [h] rows and [w] columns. *)
Definition is_plane {A} (h w : nat) (g : tensor A) : Prop :=
  shape g = [h; w; 1%nat] /\ length (data g) = (h * w)%nat.

(** The data of the stack of the planes [gs], as [tf.concat] lays it out. *)
Definition stacked_data {A} (h w : nat) (gs : list (tensor A)) : list A :=
  flat_map (fun p => flat_map (fun t => chunk (last_dim (shape t)) p (data t)) gs)
           (seq 0 (numel [h; w])).

(** The band keys of the schema, and those the default key list leaves out. *)
Definition band_keys : list string :=
  ["B1"; "B2"; "B3"; "B4"; "B5"; "B6"; "B7"; "B8"; "B9"; "B10"; "B11"].

Definition unselected_keys : list string := ["B1"; "B9"; "B10"; "B11"].

(** The two field declarations of the schema. *)
Definition string_scalar : FixedLenFeature := {| fl_shape := []; fl_dtype := tf_string |}.

Definition int64_scalar : FixedLenFeature := {| fl_shape := []; fl_dtype := tf_int64 |}.

(** The records the parser accepts: each of the twelve fields of the schema
    holds exactly one value of its type. *)
Definition well_formed (r : gmap string feature) : Prop :=
  map_Forall (fun k spec => is_Some (parse_feature spec (r !! k))) features.

(** A parsed example with the two bands B2 and B3. *)
Definition two_band_example : gmap string value :=
  {[ "B2"%string := scalar_string (replicate (IMG_DIM ^ 2) "002"%byte);
     "B3"%string := scalar_string (replicate (IMG_DIM ^ 2) "003"%byte) ]}.

(** A key the parser can stack: a band field of the schema whose payload in
    the record has at least [IMG_DIM ^ 2] bytes. *)
Definition band_ready (r : gmap string feature) (key : string) : Prop :=
  key ∈ band_keys
  /\ exists bs, payload_of r key = Some bs /\ (IMG_DIM ^ 2 <= length bs)%nat.

(** The grid [getband] makes of a payload that is long enough. *)
Definition grid_of (bs : list byte) : tensor Z :=
  Tensor [IMG_DIM; IMG_DIM; 1%nat] (byte_val <$> take (IMG_DIM ^ 2) bs).

(** A record with all twelve fields: band [Bn] holds 4225 bytes of value
    [n], and the label is [l]. *)
Definition sample_payload (b : byte) : list byte := replicate (IMG_DIM ^ 2) b.

Definition sample_record (l : Z) : gmap string feature :=
  list_to_map
    [ ("B1"%string, BytesList [sample_payload "001"%byte]);
      ("B2"%string, BytesList [sample_payload "002"%byte]);
      ("B3"%string, BytesList [sample_payload "003"%byte]);
      ("B4"%string, BytesList [sample_payload "004"%byte]);
      ("B5"%string, BytesList [sample_payload "005"%byte]);
      ("B6"%string, BytesList [sample_payload "006"%byte]);
      ("B7"%string, BytesList [sample_payload "007"%byte]);
      ("B8"%string, BytesList [sample_payload "008"%byte]);
      ("B9"%string, BytesList [sample_payload "009"%byte]);
      ("B10"%string, BytesList [sample_payload "010"%byte]);
      ("B11"%string, BytesList [sample_payload "011"%byte]);
      ("label"%string, Int64List [l]) ].

(** The sample record with other payloads for the four unselected bands. *)
Definition sample_record_alt (l : Z) : gmap string feature :=
  <[ "B1"%string := BytesList [[]] ]>
    (<[ "B9"%string := BytesList [sample_payload "255"%byte] ]>
       (<[ "B10"%string := BytesList [["000"%byte]] ]>
          (<[ "B11"%string := BytesList [sample_payload "001"%byte ++ sample_payload "002"%byte] ]>
             (sample_record l)))).

(** The per-class multipliers. *)
Definition weight_row : list float := [1; 4; 4; 6]%float.

(** The configuration with another optimizer name and learning rate. *)
Definition with_optimizer (a : args) (name : string) (lr : float) : args :=
  Args (model_name a) (data_path a) (batch_size a) (epochs a)
       (l1_size a) (l2_size a) (l3_size a) (fc1_size a) (fc2_size a)
       (dropout_1 a) (dropout_2 a) name lr (dry_run a).

(** The names [file_list_from_folder] keeps. *)
Definition is_part_file (filename : string) : bool :=
  startswith filename "part-" && negb (endswith filename "gstmp").

(** A data folder: four names under [data/train], none under [data/val]. *)
Definition sample_listdir (path : string) : option (list string) :=
  if String.eqb path "data/train"
  then Some ["part-r-00000"; "part-r-00001.gstmp"; "_SUCCESS"; "part-r-00002"]%string
  else if String.eqb path "data/val" then Some [] else None.

(** The attributes a walk along [comps] from the object [obj] reads. *)
Fixpoint attrs_present (has_attr : list string -> string -> bool)
    (obj : list string) (comps : list string) : bool :=
  match comps with
  | [] => true
  | comp :: rest => has_attr obj comp && attrs_present has_attr (obj ++ [comp]) rest
  end.

(** The package [load_optimizer] looks names up in. *)
Definition keras_optimizers : list string := ["tensorflow"; "keras"; "optimizers"]%string.

(** * Properties *)

(** ** Lists cut into blocks *)

Section Blocks.
Context {A B : Type}.
Implicit Types (f g : A -> list B) (l : list A) (d : list B).

Lemma flat_map_Forall_ext f g l :
  Forall (fun x => f x = g x) l -> flat_map f l = flat_map g l.
Proof.
  induction 1 as [|x l Hx _ IH]; [reflexivity|].
  cbn. rewrite Hx, IH. reflexivity.
Qed.

(** When every element contributes [k] entries, the [p]-th block of [k]
    entries is the contribution of the [p]-th element. *)
Lemma flat_map_block f k l p :
  Forall (fun x => length (f x) = k) l ->
  take k (drop (p * k) (flat_map f l)) = from_option f [] (l !! p).
Proof.
  intros Hl. revert p. induction Hl as [|x l Hx _ IH]; intros p.
  - cbn. rewrite drop_nil, take_nil. reflexivity.
  - destruct p as [|p]; cbn [flat_map lookup list_lookup from_option].
    + cbn [Nat.mul drop]. apply take_app_length'. symmetry. exact Hx.
    + replace (S p * k)%nat with (k + p * k)%nat by lia.
      rewrite drop_app_add' by (symmetry; exact Hx). apply IH.
Qed.

Lemma length_flat_map_const f k l :
  Forall (fun x => length (f x) = k) l -> length (flat_map f l) = (length l * k)%nat.
Proof.
  induction 1 as [|x l Hx _ IH]; [reflexivity|].
  cbn. rewrite length_app, Hx, IH. reflexivity.
Qed.

Lemma flat_map_singletons_shift (x : B) d (l : list nat) :
  flat_map (fun p => take 1 (drop p (x :: d))) (S <$> l)
  = flat_map (fun p => take 1 (drop p d)) l.
Proof.
  induction l as [|p l IH]; [reflexivity|].
  cbn [fmap list_fmap flat_map]. rewrite <- IH. reflexivity.
Qed.

(** Reading a list one entry at a time gives the list back. *)
Lemma flat_map_singletons d :
  flat_map (fun p => take 1 (drop p d)) (seq 0 (length d)) = d.
Proof.
  induction d as [|x d IH]; [reflexivity|].
  cbn [length seq flat_map]. rewrite <- fmap_S_seq, flat_map_singletons_shift, IH.
  reflexivity.
Qed.

(** An entry inside the [p]-th block can be read from that block. *)
Lemma take1_in_block d k p i :
  (i < k)%nat ->
  take 1 (drop (p * k + i) d) = take 1 (drop i (take k (drop (p * k) d))).
Proof.
  intros Hi. rewrite <- drop_drop.
  generalize (drop (p * k) d). intros e.
  rewrite (take_drop_commute (take k e)), take_take.
  rewrite (take_drop_commute e). f_equal. f_equal. lia.
Qed.
End Blocks.

(** ** Stacking single-channel planes *)

Section Planes.
Context {A : Type}.
Variables h w : nat.
Implicit Types (g : tensor A) (gs : list (tensor A)).

Lemma numel_plane_lead : numel [h; w] = (h * w)%nat.
Proof. cbn. lia. Qed.

Lemma sum_last_dims gs :
  Forall (is_plane h w) gs -> sum_list (last_dim ∘ shape <$> gs) = length gs.
Proof.
  induction 1 as [|g gs [Hs _] _ IH]; [reflexivity|].
  cbn. rewrite IH, Hs. reflexivity.
Qed.

(** One position of the stacked data: the samples of all planes there. *)
Lemma plane_row gs p :
  Forall (is_plane h w) gs ->
  flat_map (fun t => chunk (last_dim (shape t)) p (data t)) gs
  = flat_map (fun t => take 1 (drop p (data t))) gs.
Proof.
  intros Hgs. apply flat_map_Forall_ext.
  eapply Forall_impl; [exact Hgs|]. intros g [Hs _]. cbn beta.
  unfold chunk. rewrite Hs. cbn [last_dim List.last]. rewrite Nat.mul_1_r. reflexivity.
Qed.

Lemma plane_sample_length gs p :
  (p < h * w)%nat ->
  Forall (is_plane h w) gs ->
  Forall (fun t => length (take 1 (drop p (data t))) = 1%nat) gs.
Proof.
  intros Hp Hgs. eapply Forall_impl; [exact Hgs|]. intros g [_ Hl]. cbn beta.
  rewrite length_take, length_drop. lia.
Qed.

Lemma channel_plane g : is_plane h w g -> channel g 0 = g.
Proof.
  destruct g as [sh d]. intros [Hs Hl]. cbn in Hs, Hl. subst sh.
  unfold channel. cbn [shape data lead_dims removelast last_dim List.last app].
  f_equal. rewrite numel_plane_lead, <- Hl.
  etransitivity; [|apply flat_map_singletons].
  apply flat_map_Forall_ext, Forall_forall. intros p _.
  f_equal. f_equal. lia.
Qed.

Lemma channel_stacked gs i g :
  Forall (is_plane h w) gs ->
  gs !! i = Some g ->
  channel (Tensor [h; w; length gs] (stacked_data h w gs)) i = g.
Proof.
  intros Hgs Hi.
  assert (Hg : is_plane h w g).
  { eapply Forall_lookup_1; [exact Hgs | exact Hi]. }
  etransitivity; [|apply (channel_plane g Hg)]. destruct Hg as [Hs Hl].
  unfold channel. cbn [shape data]. rewrite Hs.
  cbn [lead_dims removelast last_dim List.last]. f_equal.
  apply flat_map_Forall_ext, Forall_forall. intros p Hp.
  apply elem_of_seq in Hp. rewrite numel_plane_lead in Hp.
  assert (Hlt : (i < length gs)%nat) by (eapply lookup_lt_Some; exact Hi).
  rewrite take1_in_block by exact Hlt.
  unfold stacked_data.
  rewrite (flat_map_block _ (length gs)).
  - rewrite lookup_seq_lt by (rewrite numel_plane_lead; lia).
    cbn [from_option]. rewrite plane_row by exact Hgs.
    rewrite <- (Nat.mul_1_r i) at 1.
    rewrite (flat_map_block _ 1%nat) by (apply plane_sample_length; [lia | exact Hgs]).
    rewrite Hi. cbn [from_option]. f_equal. f_equal. lia.
  - apply Forall_forall. intros q Hq. apply elem_of_seq in Hq.
    rewrite numel_plane_lead in Hq.
    rewrite plane_row by exact Hgs.
    rewrite (length_flat_map_const _ 1%nat) by (apply plane_sample_length; [lia | exact Hgs]).
    lia.
Qed.

Lemma concat_last_many g1 g2 gs :
  concat_last (g1 :: g2 :: gs)
  = let ts := g1 :: g2 :: gs in
    if decide (Forall (fun t => shape t <> [] /\ lead_dims (shape t) = lead_dims (shape g1)) ts)
    then Some (Tensor (lead_dims (shape g1) ++ [sum_list (last_dim ∘ shape <$> ts)])
                      (flat_map (fun p => flat_map (fun t => chunk (last_dim (shape t)) p (data t)) ts)
                                (seq 0 (numel (lead_dims (shape g1))))))
    else None.
Proof. reflexivity. Qed.

Lemma concat_last_planes gs :
  gs <> [] ->
  Forall (is_plane h w) gs ->
  exists img,
    concat_last gs = Some img
    /\ shape img = [h; w; length gs]
    /\ forall i g, gs !! i = Some g -> channel img i = g.
Proof.
  intros Hne Hgs. destruct gs as [|g1 [|g2 gs]]; [congruence| |].
  - exists g1. apply Forall_inv in Hgs as Hg1. repeat split.
    + apply Hg1.
    + intros [|i] g Hi; [|discriminate]. inversion Hi; subst g.
      apply channel_plane, Hg1.
  - remember (g1 :: g2 :: gs) as l eqn:El.
    exists (Tensor [h; w; length l] (stacked_data h w l)).
    assert (Hs1 : shape g1 = [h; w; 1%nat]).
    { subst l. apply Forall_inv in Hgs. apply Hgs. }
    repeat split.
    + rewrite El at 1. rewrite concat_last_many, <- El. rewrite decide_True.
      * rewrite Hs1. cbn [lead_dims removelast app].
        rewrite sum_last_dims by exact Hgs. reflexivity.
      * eapply Forall_impl; [exact Hgs|]. intros g [Hs _]. cbn beta.
        rewrite Hs, Hs1. split; [discriminate | reflexivity].
    + intros i g Hi. apply channel_stacked; assumption.
Qed.
End Planes.

(** ** Decoding one band *)

Lemma numel_grid : numel [IMG_DIM; IMG_DIM; 1%nat] = (IMG_DIM ^ 2)%nat.
Proof. reflexivity. Qed.

Lemma byte_val_range (b : byte) : 0 <= byte_val b <= 255.
Proof.
  unfold byte_val. pose proof (Byte.to_N_bounded b) as Hb. lia.
Qed.

Lemma decode_raw_scalar (bs : list byte) :
  decode_raw_uint8 (Tensor [] [bs]) = Some (Tensor [length bs] (byte_val <$> bs)).
Proof.
  unfold decode_raw_uint8. cbn [data shape forallb app flat_map].
  rewrite app_nil_r. reflexivity.
Qed.

Lemma getband_long (bs : list byte) :
  (IMG_DIM ^ 2 <= length bs)%nat ->
  getband (scalar_string bs)
  = Some (Tensor [IMG_DIM; IMG_DIM; 1%nat] (byte_val <$> take (IMG_DIM ^ 2) bs)).
Proof.
  intros Hlen. unfold getband, scalar_string. rewrite decode_raw_scalar.
  cbn [mbind option_bind]. unfold slice_prefix. cbn [shape data mbind option_bind].
  rewrite Nat.min_l by exact Hlen. cbn [numel foldr]. rewrite Nat.mul_1_r.
  unfold reshape. cbn [data]. rewrite <- fmap_take.
  rewrite decide_True; [reflexivity|].
  rewrite numel_grid, length_fmap, length_take. lia.
Qed.

Lemma getband_short (bs : list byte) :
  (length bs < IMG_DIM ^ 2)%nat -> getband (scalar_string bs) = None.
Proof.
  intros Hlen. unfold getband, scalar_string. rewrite decode_raw_scalar.
  cbn [mbind option_bind]. unfold slice_prefix. cbn [shape data mbind option_bind].
  unfold reshape. cbn [data].
  rewrite decide_False; [reflexivity|].
  rewrite numel_grid, length_take, length_fmap. lia.
Qed.

(** Whatever [getband] returns is a 65 x 65 single-channel plane. *)
Lemma getband_plane (v : value) (g : tensor Z) :
  getband v = Some g -> is_plane IMG_DIM IMG_DIM g.
Proof.
  unfold getband. destruct v as [t| |]; try discriminate.
  destruct (decode_raw_uint8 t) as [img|]; [|discriminate].
  cbn [mbind option_bind].
  destruct (slice_prefix img (IMG_DIM ^ 2)) as [sl|]; [|discriminate].
  cbn [mbind option_bind]. unfold reshape.
  destruct (decide _) as [Hn|]; [|discriminate].
  intros [= <-]. split; [reflexivity|]. cbn [data]. rewrite <- Hn. reflexivity.
Qed.

(** C1. A band payload that decodes to at least [IMG_DIM ^ 2 = 4225] unsigned
    8-bit samples is turned by [getband] into a grid of shape (65, 65, 1)
    that holds exactly the first 4225 samples, whatever bytes follow them,
    and every value of the grid lies in [0, 255]. *)
Theorem getband_grid (payload : list byte) :
  (IMG_DIM ^ 2 <= length payload)%nat ->
  exists g,
    getband (scalar_string payload) = Some g
    /\ shape g = [65; 65; 1]%nat
    /\ data g = byte_val <$> take 4225 payload
    /\ length (data g) = 4225%nat
    /\ Forall (fun v => 0 <= v <= 255) (data g)
    /\ forall trailing, getband (scalar_string (take 4225 payload ++ trailing)) = Some g.
Proof.
  intros Hlen. eexists. split; [apply getband_long, Hlen|].
  change (IMG_DIM ^ 2)%nat with 4225%nat in *. cbn [shape data].
  repeat split.
  - rewrite length_fmap, length_take. lia.
  - apply Forall_fmap, Forall_forall. intros b _. apply byte_val_range.
  - intros trailing. rewrite getband_long.
    + change (IMG_DIM ^ 2)%nat with 4225%nat.
      rewrite take_app_le by (rewrite length_take; lia).
      rewrite take_take. f_equal.
    + change (IMG_DIM ^ 2)%nat with 4225%nat.
      rewrite length_app, length_take. lia.
Qed.

Lemma getband_grid_witness :
  exists g,
    getband (scalar_string (replicate 4230 "007"%byte)) = Some g
    /\ shape g = [65; 65; 1]%nat
    /\ data g = byte_val <$> take 4225 (replicate 4230 "007"%byte)
    /\ length (data g) = 4225%nat
    /\ Forall (fun v => 0 <= v <= 255) (data g)
    /\ forall trailing,
         getband (scalar_string (take 4225 (replicate 4230 "007"%byte) ++ trailing)) = Some g.
Proof.
  apply (getband_grid (replicate 4230 "007"%byte)).
  vm_compute. lia.
Defined.

(** ** The schema and the parsed example *)

Lemma features_lookup (k : string) (spec : FixedLenFeature) :
  features !! k = Some spec ->
  (k ∈ band_keys /\ spec = string_scalar) \/ (k = "label"%string /\ spec = int64_scalar).
Proof.
  intros Hk. apply elem_of_list_to_map_2 in Hk.
  unfold features_items in Hk.
  repeat (apply elem_of_cons in Hk as [[= -> ->]|Hk];
          [first [left; split; [unfold band_keys; rewrite !elem_of_cons; tauto | reflexivity]
                 |right; split; reflexivity]|]).
  apply elem_of_nil in Hk. contradiction.
Qed.

Lemma features_band (k : string) : k ∈ band_keys -> features !! k = Some string_scalar.
Proof.
  unfold band_keys. intros Hk.
  repeat (apply elem_of_cons in Hk as [->|Hk]; [reflexivity|]).
  apply elem_of_nil in Hk. contradiction.
Qed.

Lemma features_label : features !! "label"%string = Some int64_scalar.
Proof. reflexivity. Qed.

Lemma band_keys_split (k : string) :
  k ∈ band_keys -> k ∈ default_keylist \/ k ∈ unselected_keys.
Proof.
  unfold band_keys, default_keylist, unselected_keys.
  rewrite !elem_of_cons, !elem_of_nil. tauto.
Qed.

Lemma default_keylist_bands (k : string) : k ∈ default_keylist -> k ∈ band_keys.
Proof.
  unfold band_keys, default_keylist.
  rewrite !elem_of_cons, !elem_of_nil. tauto.
Qed.

Lemma parse_feature_string (f : option feature) :
  is_Some (parse_feature string_scalar f) <-> exists bs, f = Some (BytesList [bs]).
Proof.
  unfold parse_feature, string_scalar. cbn [fl_dtype fl_shape numel foldr]. split.
  - intros [v Hv]. destruct f as [[vs| |]|]; try discriminate.
    destruct (decide _) as [Hl|]; [|discriminate].
    destruct vs as [|bs [|]]; try discriminate. eauto.
  - intros [bs ->]. cbn. eauto.
Qed.

Lemma parse_feature_int64 (f : option feature) :
  is_Some (parse_feature int64_scalar f) <-> exists l, f = Some (Int64List [l]).
Proof.
  unfold parse_feature, int64_scalar. cbn [fl_dtype fl_shape numel foldr]. split.
  - intros [v Hv]. destruct f as [[| |vs]|]; try discriminate.
    destruct (decide _) as [Hl|]; [|discriminate].
    destruct vs as [|l [|]]; try discriminate. eauto.
  - intros [l ->]. cbn. eauto.
Qed.

Lemma well_formed_fields (r : gmap string feature) :
  well_formed r <->
  (forall k, k ∈ band_keys -> is_Some (payload_of r k))
  /\ exists l, r !! "label"%string = Some (Int64List [l]).
Proof.
  unfold well_formed. rewrite map_Forall_lookup. split.
  - intros H. split.
    + intros k Hk. specialize (H k _ (features_band k Hk)).
      apply parse_feature_string in H as [bs Hbs].
      unfold payload_of. rewrite Hbs. eauto.
    + apply parse_feature_int64, (H _ _ features_label).
  - intros [Hb Hl] k spec Hk.
    apply features_lookup in Hk as [[Hk ->]|[-> ->]].
    + apply parse_feature_string. destruct (Hb k Hk) as [bs Hbs].
      unfold payload_of in Hbs.
      destruct (r !! k) as [[[|b [|]]| |]|]; try discriminate. eauto.
    + apply parse_feature_int64, Hl.
Qed.

Lemma parse_single_example_lookup (r : gmap string feature)
    (fs : gmap string FixedLenFeature) (example : gmap string value) (k : string) :
  parse_single_example r fs = Some example ->
  example !! k = fs !! k ≫= fun spec => parse_feature spec (r !! k).
Proof.
  unfold parse_single_example. destruct (decide _) as [_|]; [|discriminate].
  intros [= <-]. apply map_lookup_imap.
Qed.

Lemma parse_single_example_is_Some (r : gmap string feature) :
  well_formed r <-> is_Some (parse_single_example r features).
Proof.
  unfold parse_single_example, well_formed. destruct (decide _) as [H|H].
  - split; [eauto | intros _; exact H].
  - split; [contradiction | intros [? [=]]].
Qed.

Lemma payload_of_Some (r : gmap string feature) (k : string) (bs : list byte) :
  payload_of r k = Some bs <-> r !! k = Some (BytesList [bs]).
Proof.
  unfold payload_of. split.
  - destruct (r !! k) as [[[|b [|]]| |]|]; try discriminate. intros [= ->]. reflexivity.
  - intros ->. reflexivity.
Qed.

Section ParsedExample.
Variable r : gmap string feature.
Variable example : gmap string value.
Hypothesis Hparse : parse_single_example r features = Some example.

Lemma parsed_well_formed : well_formed r.
Proof. apply parse_single_example_is_Some. rewrite Hparse. eauto. Qed.

Lemma parsed_lookup (k : string) :
  example !! k = features !! k ≫= fun spec => parse_feature spec (r !! k).
Proof. apply parse_single_example_lookup, Hparse. Qed.

Lemma parsed_band (k : string) (bs : list byte) :
  k ∈ band_keys -> payload_of r k = Some bs -> example !! k = Some (scalar_string bs).
Proof.
  intros Hk Hbs. rewrite parsed_lookup, (features_band k Hk). cbn [mbind option_bind].
  apply payload_of_Some in Hbs. rewrite Hbs. reflexivity.
Qed.

Lemma parsed_label (l : Z) :
  r !! "label"%string = Some (Int64List [l]) ->
  example !! "label"%string = Some (VInt64 (Tensor [] [l])).
Proof.
  intros Hl. rewrite parsed_lookup, features_label. cbn [mbind option_bind].
  rewrite Hl. reflexivity.
Qed.

Lemma parsed_outside (k : string) : features !! k = None -> example !! k = None.
Proof. intros Hk. rewrite parsed_lookup, Hk. reflexivity. Qed.
End ParsedExample.

(** ** Stacking the selected bands *)

Lemma mapM_Forall_ext {A B} (f g : A -> option B) (l : list A) :
  Forall (fun x => f x = g x) l -> mapM f l = mapM g l.
Proof.
  induction 1 as [|x l Hx _ IH]; [reflexivity|].
  cbn. rewrite Hx, IH. reflexivity.
Qed.

Lemma stack_bands_grids (example : gmap string value) (keylist : list string)
    (grids : list (tensor Z)) :
  Forall2 (fun key g => example !! key ≫= getband = Some g) keylist grids ->
  stack_bands example keylist = concat_last grids
  /\ Forall (is_plane IMG_DIM IMG_DIM) grids.
Proof.
  intros Hg. split.
  - unfold stack_bands. rewrite (mapM_Some_2 _ _ _ Hg). reflexivity.
  - induction Hg as [|key g keys gs Hkey _ IH]; constructor; [|exact IH].
    destruct (example !! key) as [v|]; [|discriminate].
    apply (getband_plane v), Hkey.
Qed.

(** What [stack_bands] returns has one channel per key, and there is a key. *)
Lemma stack_bands_shape (example : gmap string value) (keylist : list string)
    (image : tensor Z) :
  stack_bands example keylist = Some image ->
  keylist <> [] /\ shape image = [IMG_DIM; IMG_DIM; length keylist].
Proof.
  unfold stack_bands. intros Hs.
  destruct (mapM _ keylist) as [grids|] eqn:Hm; [|discriminate].
  cbn [mbind option_bind] in Hs. apply mapM_Some_1 in Hm.
  destruct (stack_bands_grids _ _ _ Hm) as [_ Hplanes].
  assert (Hlen : length keylist = length grids) by (eapply Forall2_length; exact Hm).
  destruct grids as [|g gs]; [discriminate|]. split.
  - intros ->. discriminate.
  - destruct (concat_last_planes IMG_DIM IMG_DIM (g :: gs)) as (img & Himg & Hsh & _);
      [discriminate | exact Hplanes |].
    rewrite Hs in Himg. injection Himg as <-. rewrite Hsh, Hlen. reflexivity.
Qed.

Lemma stack_bands_stacked (example : gmap string value) (keylist : list string)
    (grids : list (tensor Z)) :
  keylist <> [] ->
  Forall2 (fun key g => example !! key ≫= getband = Some g) keylist grids ->
  exists image,
    stack_bands example keylist = Some image
    /\ shape image = [IMG_DIM; IMG_DIM; length keylist]
    /\ forall i g, grids !! i = Some g -> channel image i = g.
Proof.
  intros Hne Hg.
  destruct (stack_bands_grids _ _ _ Hg) as [Hstack Hplanes].
  assert (Hlen : length keylist = length grids) by (eapply Forall2_length; exact Hg).
  destruct (concat_last_planes IMG_DIM IMG_DIM grids) as (img & Himg & Hsh & Hch).
  - intros ->. destruct keylist; [congruence | discriminate].
  - exact Hplanes.
  - exists img. rewrite Hstack, Hlen. auto.
Qed.

Lemma decoded_grids (example : gmap string value) (keylist : list string) :
  Forall (fun key => is_Some (example !! key ≫= getband)) keylist ->
  exists grids, Forall2 (fun key g => example !! key ≫= getband = Some g) keylist grids.
Proof.
  induction 1 as [|key keys [g Hg] _ [grids IH]].
  - exists []. constructor.
  - exists (g :: grids). constructor; assumption.
Qed.

(** C7, as the code has it.  For every key list that is not empty and whose
    keys all have a decoded grid, the stacked image has shape
    (side, side, len(keys)) and its channel [i] is exactly the decoded grid
    of the [i]-th key; with the keys B2 and B3 the shape is (side, side, 2),
    channel 0 is the B2 grid and channel 1 the B3 grid. *)
Theorem stack_bands_channels (example : gmap string value) (keylist : list string) :
  keylist <> [] ->
  Forall (fun key => is_Some (example !! key ≫= getband)) keylist ->
  exists image,
    stack_bands example keylist = Some image
    /\ shape image = [IMG_DIM; IMG_DIM; length keylist]
    /\ forall i key g,
         keylist !! i = Some key ->
         example !! key ≫= getband = Some g ->
         channel image i = g.
Proof.
  intros Hne Hkeys.
  destruct (decoded_grids example keylist Hkeys) as [grids Hg].
  destruct (stack_bands_stacked example keylist grids Hne Hg) as (image & Hs & Hsh & Hch).
  exists image. split; [exact Hs|]. split; [exact Hsh|].
  intros i key g Hi Hkey.
  destruct (Forall2_lookup_l _ _ _ _ _ Hg Hi) as (g' & Hg' & Hkey').
  rewrite Hkey in Hkey'. injection Hkey' as <-. apply (Hch i g Hg').
Qed.

(** The empty key list: every key of it has a decoded grid, and the stack
    fails, so there is no image of shape (side, side, 0). *)
Lemma stack_bands_no_keys :
  Forall (fun key => is_Some ((∅ : gmap string value) !! key ≫= getband)) []
  /\ stack_bands ∅ [] = None
  /\ ~ exists image, stack_bands ∅ [] = Some image /\ shape image = [IMG_DIM; IMG_DIM; 0%nat].
Proof.
  split; [constructor|]. split; [reflexivity|].
  intros (image & H & _). discriminate.
Qed.

Lemma stack_bands_channels_witness :
  exists image,
    stack_bands two_band_example ["B2"; "B3"]%string = Some image
    /\ shape image = [65; 65; 2]%nat
    /\ channel image 0 = Tensor [65; 65; 1]%nat (replicate 4225 2)
    /\ channel image 1 = Tensor [65; 65; 1]%nat (replicate 4225 3).
Proof.
  destruct (stack_bands_channels two_band_example ["B2"; "B3"]%string)
    as (image & Hs & Hsh & Hch).
  - discriminate.
  - repeat constructor; vm_compute; eexists; reflexivity.
  - exists image. split; [exact Hs|]. split; [exact Hsh|].
    split; [apply (Hch 0%nat "B2"%string) | apply (Hch 1%nat "B3"%string)];
      first [reflexivity | vm_compute; reflexivity].
Defined.

(** ** The label encoder *)

Lemma length_one_hot_row (i : Z) (depth : nat) : length (one_hot_row i depth) = depth.
Proof. unfold one_hot_row. rewrite length_fmap, length_seq. reflexivity. Qed.

Lemma one_hot_row_lookup (i : Z) (depth j : nat) :
  (j < depth)%nat ->
  one_hot_row i depth !! j = Some (if Z.eqb (Z.of_nat j) i then 1%float else 0%float).
Proof.
  intros Hj. unfold one_hot_row.
  rewrite list_lookup_fmap, lookup_seq_lt by exact Hj. reflexivity.
Qed.

Lemma one_hot_row_outside (i : Z) (depth : nat) :
  i < 0 \/ Z.of_nat depth <= i -> one_hot_row i depth = replicate depth 0%float.
Proof.
  intros Hi. apply list_eq. intros j.
  destruct (decide (j < depth)%nat) as [Hj|Hj].
  - rewrite one_hot_row_lookup by exact Hj.
    rewrite lookup_replicate_2 by exact Hj.
    destruct (Z.eqb_spec (Z.of_nat j) i); [lia | reflexivity].
  - rewrite !lookup_ge_None_2; [reflexivity | |].
    + rewrite length_replicate. lia.
    + rewrite length_one_hot_row. lia.
Qed.

Lemma encode_label_scalar (l : Z) :
  encode_label (Tensor [] [l])
  = Tensor [NUM_CLASSES] (one_hot_row (wrap_int32 l) NUM_CLASSES).
Proof.
  unfold encode_label, one_hot, cast_int32.
  cbn [shape data fmap list_fmap flat_map app]. rewrite app_nil_r. reflexivity.
Qed.

Lemma wrap_int32_small (z : Z) : - 2 ^ 31 <= z < 2 ^ 31 -> wrap_int32 z = z.
Proof.
  intros Hz. unfold wrap_int32. rewrite Z.mod_small; lia.
Qed.

(** C8. For every class index [i] in [0, NUM_CLASSES) the label encoder
    gives a vector of length [NUM_CLASSES = 4] with a 1 at position [i] and
    0 at every other position. *)
Theorem encode_label_one_hot (i : Z) :
  0 <= i < Z.of_nat NUM_CLASSES ->
  exists v,
    encode_label (Tensor [] [i]) = Tensor [4%nat] v
    /\ length v = 4%nat
    /\ v !! Z.to_nat i = Some 1%float
    /\ forall j, (j < 4)%nat -> j <> Z.to_nat i -> v !! j = Some 0%float.
Proof.
  intros Hi. change (Z.of_nat NUM_CLASSES) with 4 in Hi.
  exists (one_hot_row (wrap_int32 i) NUM_CLASSES). rewrite encode_label_scalar.
  rewrite wrap_int32_small by lia. change NUM_CLASSES with 4%nat.
  split; [reflexivity|]. split; [apply length_one_hot_row|]. split.
  - rewrite one_hot_row_lookup by lia.
    destruct (Z.eqb_spec (Z.of_nat (Z.to_nat i)) i); [reflexivity | lia].
  - intros j Hj Hne. rewrite one_hot_row_lookup by exact Hj.
    destruct (Z.eqb_spec (Z.of_nat j) i); [lia | reflexivity].
Qed.

Lemma encode_label_one_hot_witness :
  exists v,
    encode_label (Tensor [] [2]) = Tensor [4%nat] v
    /\ length v = 4%nat
    /\ v !! Z.to_nat 2 = Some 1%float
    /\ forall j, (j < 4)%nat -> j <> Z.to_nat 2 -> v !! j = Some 0%float.
Proof. apply (encode_label_one_hot 2). unfold NUM_CLASSES. lia. Defined.

(** ** The whole per-record transform *)

Lemma parsed_grids (r : gmap string feature) (example : gmap string value)
    (keylist : list string) :
  parse_single_example r features = Some example ->
  Forall (band_ready r) keylist ->
  exists grids,
    Forall2 (fun key g => example !! key ≫= getband = Some g) keylist grids
    /\ forall i key bs,
         keylist !! i = Some key -> payload_of r key = Some bs ->
         grids !! i = Some (grid_of bs).
Proof.
  intros Hparse Hready.
  induction Hready as [|key keys (Hkey & bs & Hbs & Hlen) _ (grids & Hg & Hgrid)].
  - exists []. split; [constructor|]. intros i key bs [=].
  - exists (grid_of bs :: grids). split.
    + constructor; [|exact Hg].
      rewrite (parsed_band r example Hparse key bs Hkey Hbs). cbn [mbind option_bind].
      apply getband_long, Hlen.
    + intros [|i] key' bs'; cbn [lookup list_lookup].
      * intros [= <-] Hbs'. rewrite Hbs in Hbs'. injection Hbs' as <-. reflexivity.
      * apply Hgrid.
Qed.

(** What [_parse_] returns on a record it accepts. *)
Lemma parse_selected (r : gmap string feature) (keylist : list string) (l : Z) :
  well_formed r ->
  r !! "label"%string = Some (Int64List [l]) ->
  keylist <> [] ->
  Forall (band_ready r) keylist ->
  exists image,
    _parse_ r keylist = Some ({[ "image"%string := image ]}, encode_label (Tensor [] [l]))
    /\ shape image = [IMG_DIM; IMG_DIM; length keylist]
    /\ forall i key bs,
         keylist !! i = Some key -> payload_of r key = Some bs ->
         channel image i = grid_of bs.
Proof.
  intros Hwf Hl Hne Hready.
  apply parse_single_example_is_Some in Hwf as [example Hparse].
  destruct (parsed_grids r example keylist Hparse Hready) as (grids & Hg & Hgrid).
  destruct (stack_bands_stacked example keylist grids Hne Hg) as (image & Hs & Hsh & Hch).
  exists image. split; [|split; [exact Hsh|]].
  - unfold _parse_. rewrite Hparse. cbn [mbind option_bind].
    rewrite Hs. cbn [mbind option_bind].
    rewrite (parsed_label r example Hparse l Hl). reflexivity.
  - intros i key bs Hi Hbs. apply Hch, (Hgrid i key bs Hi Hbs).
Qed.

Lemma sample_record_label (l : Z) : sample_record l !! "label"%string = Some (Int64List [l]).
Proof. reflexivity. Qed.

Lemma sample_record_ready (l : Z) (key : string) :
  key ∈ band_keys -> band_ready (sample_record l) key.
Proof.
  intros Hkey. split; [exact Hkey|]. unfold band_keys in Hkey.
  repeat (apply elem_of_cons in Hkey as [->|Hkey];
          [eexists; split; [reflexivity | unfold sample_payload; rewrite length_replicate; lia]|]).
  apply elem_of_nil in Hkey. contradiction.
Qed.

Lemma sample_record_well_formed (l : Z) : well_formed (sample_record l).
Proof.
  apply well_formed_fields. split.
  - intros key Hkey. destruct (sample_record_ready l key Hkey) as (_ & bs & -> & _). eauto.
  - exists l. reflexivity.
Qed.

Lemma sample_record_default_ready (l : Z) : Forall (band_ready (sample_record l)) default_keylist.
Proof.
  apply Forall_forall. intros key Hkey.
  apply sample_record_ready, default_keylist_bands, Hkey.
Qed.

Lemma sample_record_parse (l : Z) :
  exists image,
    _parse_ (sample_record l) default_keylist
    = Some ({[ "image"%string := image ]}, encode_label (Tensor [] [l]))
    /\ shape image = [65; 65; 7]%nat.
Proof.
  destruct (parse_selected (sample_record l) default_keylist l) as (image & Hp & Hsh & _).
  - apply sample_record_well_formed.
  - apply sample_record_label.
  - discriminate.
  - apply sample_record_default_ready.
  - exists image. split; [exact Hp | exact Hsh].
Qed.

(** ** The default band selection *)

Lemma size_band_fields : size (band_fields features) = 11%nat.
Proof. vm_compute. reflexivity. Qed.

Lemma size_label_fields : size (label_fields features) = 1%nat.
Proof. vm_compute. reflexivity. Qed.

Lemma parse_image (r : gmap string feature) (keylist : list string)
    (out : gmap string (tensor Z) * tensor float) :
  _parse_ r keylist = Some out ->
  exists example image,
    parse_single_example r features = Some example
    /\ stack_bands example keylist = Some image
    /\ out.1 = {[ "image"%string := image ]}.
Proof.
  unfold _parse_. intros Hp.
  destruct (parse_single_example r features) as [example|] eqn:He; [|discriminate].
  cbn [mbind option_bind] in Hp.
  destruct (stack_bands example keylist) as [image|] eqn:Hs; [|discriminate].
  cbn [mbind option_bind] in Hp.
  destruct (example !! "label"%string) as [[| t |]|]; try discriminate.
  cbn [mbind option_bind] in Hp. injection Hp as <-.
  exists example, image. split; [reflexivity|]. split; [exact Hs | reflexivity].
Qed.

(** C4, as the code has it.  The default key list holds 7 keys, B2 to B8,
    all of them among the 11 band fields of the schema, and [NUM_BANDS] is 7;
    the image [_parse_] produces with the default list has exactly 7
    channels. *)
Theorem default_keylist_channels (r : gmap string feature)
    (out : gmap string (tensor Z) * tensor float) :
  _parse_ r default_keylist = Some out ->
  default_keylist = ["B2"; "B3"; "B4"; "B5"; "B6"; "B7"; "B8"]%string
  /\ length default_keylist = 7%nat
  /\ NUM_BANDS = 7%nat
  /\ Forall (fun key => key ∈ band_keys) default_keylist
  /\ size (band_fields features) = 11%nat
  /\ exists image,
       out.1 = {[ "image"%string := image ]}
       /\ shape image = [65; 65; 7]%nat.
Proof.
  intros Hp. split; [reflexivity|]. split; [reflexivity|]. split; [reflexivity|]. split.
  { apply Forall_forall. intros key. apply default_keylist_bands. }
  split; [exact size_band_fields|].
  destruct (parse_image r default_keylist out Hp) as (example & image & _ & Hs & Hout).
  exists image. split; [exact Hout|].
  apply stack_bands_shape in Hs as [_ Hsh]. exact Hsh.
Qed.

Lemma default_keylist_channels_witness :
  exists out,
    _parse_ (sample_record 0) default_keylist = Some out
    /\ length default_keylist = 7%nat
    /\ exists image, out.1 = {[ "image"%string := image ]} /\ shape image = [65; 65; 7]%nat.
Proof.
  destruct (sample_record_parse 0) as (image & Hp & _).
  eexists. split; [exact Hp|].
  destruct (default_keylist_channels (sample_record 0) _ Hp) as (_ & Hlen & _ & _ & _ & Himg).
  split; [exact Hlen | exact Himg].
Defined.

(** The default list does not hold 6 keys, the schema does not hold 10 band
    fields, and the image of a record parsed with the default list does not
    have 6 channels. *)
Lemma default_keylist_not_six :
  length default_keylist <> 6%nat
  /\ size (band_fields features) <> 10%nat
  /\ exists image label,
       _parse_ (sample_record 0) default_keylist = Some ({[ "image"%string := image ]}, label)
       /\ shape image = [65; 65; 7]%nat
       /\ shape image <> [65; 65; 6]%nat.
Proof.
  split; [discriminate|]. split; [rewrite size_band_fields; discriminate|].
  destruct (sample_record_parse 0) as (image & Hp & Hsh).
  exists image, (encode_label (Tensor [] [0])).
  split; [exact Hp|]. split; [exact Hsh|]. rewrite Hsh. discriminate.
Qed.

(** ** The schema *)

(** C5, as the code has it.  The schema has exactly 11 band fields, B1 to
    B11, and 1 label field.  Parsing a record gives a mapping that holds,
    for each of the 11 band keys, the payload of the band, which [getband]
    decodes to the single-channel grid of the band when the payload is long
    enough, together with the raw label integer. *)
Theorem schema_and_example (r : gmap string feature) (example : gmap string value) :
  parse_single_example r features = Some example ->
  size (band_fields features) = 11%nat
  /\ size (label_fields features) = 1%nat
  /\ size features = 12%nat
  /\ (forall key, key ∈ band_keys <-> is_Some (band_fields features !! key))
  /\ (forall key, key ∈ band_keys ->
        exists bs,
          payload_of r key = Some bs
          /\ example !! key = Some (scalar_string bs)
          /\ ((IMG_DIM ^ 2 <= length bs)%nat ->
              example !! key ≫= getband = Some (grid_of bs)
              /\ shape (grid_of bs) = [65; 65; 1]%nat))
  /\ (exists l,
        r !! "label"%string = Some (Int64List [l])
        /\ example !! "label"%string = Some (VInt64 (Tensor [] [l])))
  /\ (forall key, is_Some (example !! key) <-> is_Some (features !! key)).
Proof.
  intros Hparse.
  split; [exact size_band_fields|]. split; [exact size_label_fields|].
  split; [vm_compute; reflexivity|].
  pose proof (parsed_well_formed r example Hparse) as Hwf.
  pose proof Hwf as Hwf'. apply well_formed_fields in Hwf' as [Hbands [l Hl]].
  split; [|split; [|split]].
  - intros key. unfold band_fields. split.
    + intros Hkey. exists string_scalar. apply map_lookup_filter_Some.
      split; [apply features_band, Hkey | reflexivity].
    + intros [spec Hspec]. apply map_lookup_filter_Some in Hspec as [Hspec Hty].
      apply features_lookup in Hspec as [[Hkey _]|[_ ->]]; [exact Hkey | discriminate].
  - intros key Hkey. destruct (Hbands key Hkey) as [bs Hbs]. exists bs.
    pose proof (parsed_band r example Hparse key bs Hkey Hbs) as Hex.
    split; [exact Hbs|]. split; [exact Hex|]. intros Hlen.
    rewrite Hex. cbn [mbind option_bind]. split; [apply getband_long, Hlen | reflexivity].
  - exists l. split; [exact Hl | apply (parsed_label r example Hparse l Hl)].
  - intros key. rewrite (parsed_lookup r example Hparse key). split.
    + intros [v Hv]. destruct (features !! key); [eauto | discriminate].
    + intros [spec Hspec]. rewrite Hspec. cbn [mbind option_bind].
      apply (map_Forall_lookup_1 _ _ _ _ Hwf Hspec).
Qed.

Lemma schema_and_example_witness :
  exists example,
    parse_single_example (sample_record 3) features = Some example
    /\ size (band_fields features) = 11%nat
    /\ size (label_fields features) = 1%nat
    /\ example !! "B11"%string = Some (scalar_string (sample_payload "011"%byte))
    /\ example !! "label"%string = Some (VInt64 (Tensor [] [3])).
Proof.
  destruct (proj1 (parse_single_example_is_Some (sample_record 3))
                  (sample_record_well_formed 3)) as [example Hparse].
  exists example. split; [exact Hparse|].
  destruct (schema_and_example (sample_record 3) example Hparse)
    as (Hb & Hl & _ & _ & Hband & (l & Hrl & Hel) & _).
  split; [exact Hb|]. split; [exact Hl|]. split.
  - destruct (Hband "B11"%string) as (bs & Hbs & Hex & _).
    + unfold band_keys. rewrite !elem_of_cons. tauto.
    + rewrite Hex. injection Hbs as <-. reflexivity.
  - rewrite Hel. rewrite sample_record_label in Hrl. injection Hrl as <-. reflexivity.
Defined.

(** The schema does not hold 10 band fields: it holds 11, and B11 is one. *)
Lemma schema_not_ten_bands :
  size (band_fields features) <> 10%nat
  /\ size (band_fields features) = 11%nat
  /\ band_fields features !! "B11"%string = Some string_scalar.
Proof.
  rewrite size_band_fields. split; [discriminate|]. split; [reflexivity|].
  vm_compute. reflexivity.
Qed.

(** ** Labels outside the class range *)

(** C6, as the code has it.  A label whose 32-bit value lies outside
    [0, NUM_CLASSES) does not make the transform fail: the record is parsed,
    and the label vector is the all-zero vector of length 4. *)
Theorem label_out_of_range_zero (r : gmap string feature) (keylist : list string) (l : Z) :
  well_formed r ->
  r !! "label"%string = Some (Int64List [l]) ->
  keylist <> [] ->
  Forall (band_ready r) keylist ->
  wrap_int32 l < 0 \/ Z.of_nat NUM_CLASSES <= wrap_int32 l ->
  exists image,
    _parse_ r keylist
    = Some ({[ "image"%string := image ]}, Tensor [4%nat] [0; 0; 0; 0]%float).
Proof.
  intros Hwf Hl Hne Hready Hout.
  destruct (parse_selected r keylist l Hwf Hl Hne Hready) as (image & Hp & _).
  exists image. rewrite Hp, encode_label_scalar.
  rewrite one_hot_row_outside by exact Hout. reflexivity.
Qed.

Lemma label_out_of_range_zero_witness :
  exists image,
    _parse_ (sample_record (-1)) default_keylist
    = Some ({[ "image"%string := image ]}, Tensor [4%nat] [0; 0; 0; 0]%float).
Proof.
  apply (label_out_of_range_zero (sample_record (-1)) default_keylist (-1)).
  - apply sample_record_well_formed.
  - reflexivity.
  - discriminate.
  - apply sample_record_default_ready.
  - vm_compute. left. reflexivity.
Defined.

(** A record whose stored label is 7, outside [0, 4), is parsed without a
    failure. *)
Lemma label_seven_accepted :
  ~ (0 <= 7 < Z.of_nat NUM_CLASSES)
  /\ sample_record 7 !! "label"%string = Some (Int64List [7])
  /\ _parse_ (sample_record 7) default_keylist <> None
  /\ exists image,
       _parse_ (sample_record 7) default_keylist
       = Some ({[ "image"%string := image ]}, Tensor [4%nat] [0; 0; 0; 0]%float).
Proof.
  assert (H : exists image,
             _parse_ (sample_record 7) default_keylist
             = Some ({[ "image"%string := image ]}, Tensor [4%nat] [0; 0; 0; 0]%float)).
  { destruct (sample_record_parse 7) as (image & Hp & _). exists image.
    rewrite Hp, encode_label_scalar. reflexivity. }
  split; [unfold NUM_CLASSES; lia|]. split; [reflexivity|]. split; [|exact H].
  destruct H as [image ->]. discriminate.
Qed.

(** The cast keeps the low 32 bits: a stored label of 2^32 + 1 is encoded as
    class 1. *)
Lemma wrapped_label_is_a_class :
  encode_label (Tensor [] [2 ^ 32 + 1]) = Tensor [4%nat] [0; 1; 0; 0]%float.
Proof. reflexivity. Qed.

(** ** Bands that are not selected *)

Lemma parse_agree (keylist : list string) (r1 r2 : gmap string feature) :
  (well_formed r1 <-> well_formed r2) ->
  Forall (fun key => r1 !! key = r2 !! key) keylist ->
  r1 !! "label"%string = r2 !! "label"%string ->
  _parse_ r1 keylist = _parse_ r2 keylist.
Proof.
  intros Hwf Hkeys Hlabel. unfold _parse_.
  destruct (parse_single_example r1 features) as [ex1|] eqn:H1;
    destruct (parse_single_example r2 features) as [ex2|] eqn:H2.
  - cbn [mbind option_bind].
    assert (Hs : stack_bands ex1 keylist = stack_bands ex2 keylist).
    { unfold stack_bands. f_equal. apply mapM_Forall_ext.
      eapply Forall_impl; [exact Hkeys|]. intros key Hkey. cbn beta.
      rewrite (parsed_lookup r1 ex1 H1 key), (parsed_lookup r2 ex2 H2 key), Hkey.
      reflexivity. }
    rewrite Hs.
    rewrite (parsed_lookup r1 ex1 H1 "label"), (parsed_lookup r2 ex2 H2 "label"), Hlabel.
    reflexivity.
  - exfalso. assert (Hw : well_formed r1) by (apply parse_single_example_is_Some; rewrite H1; eauto).
    apply Hwf, parse_single_example_is_Some in Hw. rewrite H2 in Hw. destruct Hw as [? [=]].
  - exfalso. assert (Hw : well_formed r2) by (apply parse_single_example_is_Some; rewrite H2; eauto).
    apply Hwf, parse_single_example_is_Some in Hw. rewrite H1 in Hw. destruct Hw as [? [=]].
  - reflexivity.
Qed.

(** C9. Two records with the same label field and the same payloads for the
    selected bands B2 to B8, whatever payloads they hold for B1, B9, B10 and
    B11, are parsed to the same result: the same image and label, or the same
    failure. *)
Theorem unselected_bands_irrelevant (r1 r2 : gmap string feature) :
  Forall (fun key => r1 !! key = r2 !! key) default_keylist ->
  r1 !! "label"%string = r2 !! "label"%string ->
  Forall (fun key => is_Some (payload_of r1 key) /\ is_Some (payload_of r2 key))
         unselected_keys ->
  _parse_ r1 default_keylist = _parse_ r2 default_keylist.
Proof.
  intros Hsel Hlabel Hun. apply parse_agree; [|exact Hsel | exact Hlabel].
  rewrite Forall_forall in Hsel, Hun.
  assert (Hb : forall key, key ∈ band_keys ->
                 (is_Some (payload_of r1 key) <-> is_Some (payload_of r2 key))).
  { intros key Hkey. apply band_keys_split in Hkey as [Hkey|Hkey].
    - unfold payload_of. rewrite (Hsel key Hkey). reflexivity.
    - destruct (Hun key Hkey). tauto. }
  rewrite !well_formed_fields, Hlabel. split; intros [H1 H2]; (split; [|exact H2]);
    intros key Hkey; apply (Hb key Hkey), H1, Hkey.
Qed.

Lemma unselected_bands_irrelevant_witness :
  sample_record 1 !! "B1"%string <> sample_record_alt 1 !! "B1"%string
  /\ _parse_ (sample_record 1) default_keylist = _parse_ (sample_record_alt 1) default_keylist.
Proof.
  split; [discriminate|].
  apply (unselected_bands_irrelevant (sample_record 1) (sample_record_alt 1)).
  - repeat constructor.
  - reflexivity.
  - repeat constructor; eexists; reflexivity.
Defined.

(** ** The class-weight matrix *)

Lemma col_iadd_replicate (n m j : nat) (w : float) (row : list float) :
  (j < m)%nat ->
  col_iadd (NdArray (n, m) (replicate n row)) j w
  = Some (NdArray (n, m) (replicate n (alter (fun x => (x + w)%float) j row))).
Proof.
  intros Hj. unfold col_iadd. cbn [nd_shape nd_rows snd].
  rewrite decide_True by exact Hj. rewrite fmap_replicate. reflexivity.
Qed.

Lemma class_weights_matrix_with_rows (n : nat) :
  class_weights_matrix_with (Z.of_nat n) NUM_CLASSES
  = Some (NdArray (n, 4%nat) (replicate n weight_row)).
Proof.
  unfold class_weights_matrix_with, np_zeros, NUM_CLASSES.
  rewrite (proj2 (Z.leb_le 0 (Z.of_nat n))) by lia. rewrite Nat2Z.id.
  cbn [mbind option_bind].
  rewrite col_iadd_replicate by lia. cbn [mbind option_bind].
  rewrite col_iadd_replicate by lia. cbn [mbind option_bind].
  rewrite col_iadd_replicate by lia. cbn [mbind option_bind].
  rewrite col_iadd_replicate by lia. cbn [mbind option_bind].
  reflexivity.
Qed.

(** C2. The class-weight matrix is a function of the training-example count
    and the class count alone (the body reads nothing else, so equal counts
    give equal matrices); for every example count [n], with the four classes
    of the program, it has shape (n, 4) and each of its [n] rows is
    [1.0, 4.0, 4.0, 6.0].  This holds for a count of 100, where the shape is
    (100, 4), and for the module constants. *)
Theorem class_weights_rows :
  (forall n : nat,
     exists m,
       class_weights_matrix_with (Z.of_nat n) NUM_CLASSES = Some m
       /\ nd_shape m = (n, 4%nat)
       /\ length (nd_rows m) = n
       /\ Forall (fun row => row = [1; 4; 4; 6]%float) (nd_rows m))
  /\ (exists m,
        class_weights_matrix_with 100 4 = Some m
        /\ nd_shape m = (100%nat, 4%nat)
        /\ Forall (fun row => row = [1; 4; 4; 6]%float) (nd_rows m))
  /\ (exists m,
        class_weights_matrix = Some m
        /\ nd_shape m = (Z.to_nat NUM_TRAIN, NUM_CLASSES)
        /\ Forall (fun row => row = [1; 4; 4; 6]%float) (nd_rows m)).
Proof.
  assert (Hrows : forall n, Forall (fun row => row = weight_row) (replicate n weight_row)).
  { intros n. apply Forall_forall. intros row Hrow.
    apply elem_of_replicate in Hrow as [-> _]. reflexivity. }
  split; [|split].
  - intros n. eexists. split; [apply class_weights_matrix_with_rows|].
    cbn [nd_shape nd_rows]. split; [reflexivity|].
    split; [apply length_replicate | apply Hrows].
  - eexists. split; [apply (class_weights_matrix_with_rows 100)|].
    split; [reflexivity | apply Hrows].
  - eexists. split.
    + unfold class_weights_matrix. rewrite <- (Z2Nat.id NUM_TRAIN) by (unfold NUM_TRAIN; lia).
      apply class_weights_matrix_with_rows.
    + split; [reflexivity | apply Hrows].
Qed.

(** With another class count the rows are different or the call fails: the
    four columns are written whatever the count is. *)
Lemma class_weights_other_counts :
  class_weights_matrix_with 2 3 = None
  /\ class_weights_matrix_with 2 5
     = Some (NdArray (2%nat, 5%nat) [[1; 4; 4; 6; 0]; [1; 4; 4; 6; 0]]%float).
Proof. split; reflexivity. Qed.

(** ** The regression model's optimizer *)

(** C10. [build_regression_model] compiles its model with the Adam class of
    the library called without arguments, so with the library's default
    learning rate, whatever optimizer name and learning rate the
    configuration holds: changing these two fields does not change the
    model. *)
Theorem regression_model_ignores_optimizer (a : args) (name : string) (lr : float) :
  m_optimizer (build_regression_model a) = OptimizerInstance keras_Adam []
  /\ opt_kwargs (m_optimizer (build_regression_model a)) = []
  /\ build_regression_model (with_optimizer a name lr) = build_regression_model a.
Proof. repeat split. Qed.

(** The classification model, in contrast, is compiled with the optimizer
    the configuration names, at the configured learning rate. *)
Lemma classification_model_uses_optimizer
    (importable : string -> bool) (has_attr : list string -> string -> bool)
    (callable_with : list string -> list string -> bool)
    (a : args) (m : compiled_model) :
  build_classification_model importable has_attr callable_with a = Some m ->
  load_optimizer importable has_attr callable_with (optimizer a) (learning_rate a)
  = Some (m_optimizer m)
  /\ opt_kwargs (m_optimizer m) = [("lr"%string, learning_rate a)].
Proof.
  unfold build_classification_model. intros Hm.
  destruct (load_optimizer _ _ _ _ _) as [o|] eqn:Ho; [|discriminate].
  cbn [mbind option_bind] in Hm. injection Hm as <-. cbn [m_optimizer].
  split; [reflexivity|].
  unfold load_optimizer in Ho.
  destruct (load_class_from_module _ _ _) as [cls|]; [|discriminate].
  cbn [mbind option_bind] in Ho.
  destruct (callable_with cls _); [|discriminate].
  injection Ho as <-. reflexivity.
Qed.

(** ** Steps per epoch

    The quotient of two positive integers below 2^53 is computed in binary64
    floats; its floor is the integer quotient.  The proof follows the
    division and the rounding of the float specification on mantissas and
    exponents. *)

Lemma digits2_pos_size (p : positive) : digits2_pos p = Pos.size p.
Proof. induction p as [p IH|p IH|]; cbn; rewrite ?IH; reflexivity. Qed.

Lemma size_bounds (p : positive) :
  2 ^ (Z.pos (Pos.size p) - 1) <= Z.pos p < 2 ^ Z.pos (Pos.size p).
Proof.
  induction p as [p IH|p IH|]; [| |cbn; lia];
    cbn [Pos.size]; rewrite Pos2Z.inj_succ;
    replace (Z.succ (Z.pos (Pos.size p)) - 1) with (Z.succ (Z.pos (Pos.size p) - 1)) by lia;
    rewrite !Z.pow_succ_r by lia; lia.
Qed.

Lemma digits_unique (p : positive) (d : Z) :
  2 ^ (d - 1) <= Z.pos p < 2 ^ d -> Z.pos (digits2_pos p) = d.
Proof.
  intros [Hlo Hhi]. rewrite digits2_pos_size.
  destruct (size_bounds p) as [Slo Shi]. set (s := Z.pos (Pos.size p)) in *.
  assert (0 < d).
  { destruct (Z.le_gt_cases d 0) as [Hd|Hd]; [|exact Hd].
    assert (2 ^ d <= 2 ^ 0) by (apply Z.pow_le_mono_r; lia). simpl in *. lia. }
  assert (s - 1 < d) by (apply (Z.pow_lt_mono_r_iff 2); lia).
  assert (d - 1 < s) by (apply (Z.pow_lt_mono_r_iff 2); lia).
  lia.
Qed.

Lemma iter_xO (p k : positive) : Z.pos (Pos.iter xO p k) = Z.pos p * 2 ^ Z.pos k.
Proof.
  induction k as [|k IH] using Pos.peano_ind.
  - cbn. lia.
  - rewrite Pos.iter_succ, Pos2Z.inj_xO, IH, Pos2Z.inj_succ, Z.pow_succ_r by lia. lia.
Qed.

Lemma fexp_normal (e : Z) : -1021 <= e -> fexp prec emax e = e - 53.
Proof. unfold fexp, emin, prec, emax. lia. Qed.

Lemma round_exact_53 (s : bool) (m : positive) (e : Z) :
  Z.pos (digits2_pos m) = 53 -> -1074 <= e <= 971 ->
  binary_round_aux prec emax s (Z.pos m) e loc_Exact = S754_finite s m e.
Proof.
  intros Hd He. unfold binary_round_aux, shr_fexp. cbn [Zdigits2].
  rewrite Hd, fexp_normal by lia. replace (53 + e - 53 - e) with 0 by lia.
  cbn [shr shr_record_of_loc shr_m loc_of_shr_record round_nearest_even Zdigits2].
  rewrite Hd, fexp_normal by lia. replace (53 + e - 53 - e) with 0 by lia.
  cbn [shr shr_record_of_loc shr_m].
  destruct (Z.leb_spec e (emax - prec)) as [_|H]; [reflexivity|].
  unfold emax, prec in H. lia.
Qed.

(** float(n) for 0 < n < 2^53 is exact *)
Lemma normalize_small (p : positive) (d : Z) :
  Z.pos (digits2_pos p) = d -> d <= 53 ->
  exists m, binary_normalize prec emax (Z.pos p) 0 false = S754_finite false m (d - 53)
            /\ Z.pos m = Z.pos p * 2 ^ (53 - d)
            /\ Z.pos (digits2_pos m) = 53.
Proof.
  intros Hd Hle. pose proof (size_bounds p) as Hb. rewrite <- digits2_pos_size, Hd in Hb.
  assert (0 < d) by (rewrite <- Hd; lia).
  unfold binary_normalize, binary_round, shl_align.
  rewrite Z.add_0_r, Hd, fexp_normal by lia. rewrite Z.sub_0_r.
  destruct (d - 53) as [|k|k] eqn:Hk; [|lia|].
  - exists p. assert (Hd53 : d = 53) by lia.
    split; [apply round_exact_53; lia|].
    split; [rewrite Hd53; cbn; lia | lia].
  - assert (Hm : Z.pos (Pos.iter xO p k) = Z.pos p * 2 ^ (53 - d)).
    { rewrite iter_xO. f_equal. f_equal. lia. }
    assert (Hdm : Z.pos (digits2_pos (Pos.iter xO p k)) = 53).
    { apply digits_unique. rewrite Hm.
      replace (2 ^ (53 - 1)) with (2 ^ (d - 1) * 2 ^ (53 - d))
        by (rewrite <- Z.pow_add_r by lia; f_equal; lia).
      replace (2 ^ 53) with (2 ^ d * 2 ^ (53 - d))
        by (rewrite <- Z.pow_add_r by lia; f_equal; lia).
      assert (0 < 2 ^ (53 - d)) by (apply Z.pow_pos_nonneg; lia).
      nia. }
    exists (Pos.iter xO p k). split; [|split; [exact Hm | exact Hdm]].
    apply round_exact_53; [exact Hdm | lia].
Qed.

(** The float specification names the integer operations of the core
    library; they are the ones of [Z]. *)
Ltac zdef :=
  change IntDef.Z.eqb with Z.eqb in *; change IntDef.Z.compare with Z.compare in *;
  change IntDef.Z.mul with Z.mul in *; change IntDef.Z.add with Z.add in *;
  change IntDef.Z.sub with Z.sub in *; change IntDef.Z.even with Z.even in *;
  change IntDef.Z.leb with Z.leb in *; change IntDef.Z.min with Z.min in *;
  change IntDef.Z.max with Z.max in *; change IntDef.Z.div_eucl with Z.div_eucl in *;
  change IntDef.Z.shiftl with Z.shiftl in *; change IntDef.Z.opp with Z.opp in *.

Lemma new_location_cases (nb k : Z) :
  0 < nb -> 0 <= k < nb ->
  new_location nb k = if k =? 0 then loc_Exact else loc_Inexact (2 * k ?= nb).
Proof.
  intros Hnb Hk. unfold new_location, new_location_even, new_location_odd. zdef.
  destruct (Z.even nb) eqn:Hev; cbn beta; [reflexivity|].
  destruct (k =? 0) eqn:Hk0; [reflexivity|].
  - apply Z.eqb_neq in Hk0.
    f_equal. rewrite <- Z.negb_odd in Hev. apply Bool.negb_false_iff in Hev.
    apply Z.odd_spec in Hev as [j ->].
    destruct (Z.compare_spec (2 * k + 1) (2 * j + 1)); symmetry;
      [apply Z.compare_lt_iff | apply Z.compare_lt_iff | apply Z.compare_gt_iff]; lia.
Qed.

Lemma loc_of_shr_record_of_loc (m : Z) (l : location) :
  loc_of_shr_record (shr_record_of_loc m l) = l.
Proof. destruct l as [|[| |]]; reflexivity. Qed.

Lemma round_nearest_even_range (m : Z) (l : location) :
  m <= round_nearest_even m l <= m + 1.
Proof.
  unfold round_nearest_even. destruct l as [|[| |]]; try lia.
  destruct (Z.even m); lia.
Qed.

Lemma div2_xI (p : positive) : Z.pos p~1 / 2 = Z.pos p.
Proof. rewrite Pos2Z.inj_xI. symmetry. apply (Z.div_unique _ _ _ 1); lia. Qed.

Lemma div2_xO (p : positive) : Z.pos p~0 / 2 = Z.pos p.
Proof. rewrite Pos2Z.inj_xO. symmetry. apply (Z.div_unique _ _ _ 0); lia. Qed.

(** One right shift: the mantissa is halved, the lost bit is remembered. *)
Lemma shr_1_round (p : positive) (l : location) :
  let mrs := shr_1 (shr_record_of_loc (Z.pos p) l) in
  let m1 := round_nearest_even (shr_m mrs) (loc_of_shr_record mrs) in
  shr_m mrs = Z.pos p / 2
  /\ (m1 = Z.pos p / 2 \/ (m1 = Z.pos p / 2 + 1 /\ Z.odd (Z.pos p) = true)).
Proof.
  destruct p as [p|p|]; destruct l as [|[| |]];
    cbn [shr_1 shr_record_of_loc shr_m loc_of_shr_record round_nearest_even orb];
    zdef; rewrite ?div2_xI, ?div2_xO; change (1 / 2) with 0;
    (split; [reflexivity|]);
    try (destruct (Z.even (Z.pos p)));
    first [left; reflexivity | right; split; reflexivity].
Qed.

Lemma shiftl_neg (m e : Z) : e <= 0 -> Z.shiftl m e = m / 2 ^ (- e).
Proof. intros He. apply Z.shiftl_div_pow2. exact He. Qed.

(** The second normalisation of [binary_round_aux] keeps the value. *)
Lemma final_floor (m1 e : Z) :
  2 ^ 52 <= m1 <= 2 ^ 53 -> -1074 <= e <= 0 ->
  sf_floor
    (let '(mrs, e') := shr_fexp prec emax m1 e loc_Exact in
     match shr_m mrs with
     | Z0 => S754_zero false
     | Zpos m => if e' <=? emax - prec then S754_finite false m e' else S754_infinity false
     | Zneg _ => S754_nan
     end)
  = Some (m1 / 2 ^ (- e)).
Proof.
  intros Hm He. destruct m1 as [|p|p]; [lia| |lia].
  destruct (Z.eq_dec (Z.pos p) (2 ^ 53)) as [Heq|Hne].
  - assert (Hp : p = 9007199254740992%positive) by (apply Pos2Z.inj; exact Heq).
    subst p.
    assert (Hd : Z.pos (digits2_pos 9007199254740992) = 54) by reflexivity.
    unfold shr_fexp. cbn [Zdigits2]. rewrite Hd, fexp_normal by lia.
    replace (54 + e - 53 - e) with 1 by lia.
    cbn [shr SpecFloat.iter_pos shr_1 shr_record_of_loc shr_m].
    destruct (Z.leb_spec (e + 1) (emax - prec)) as [_|H]; [|unfold emax, prec in H; lia].
    cbn [sf_floor cond_Zopp]. f_equal.
    destruct (Z.eq_dec e 0) as [->|He0]; [reflexivity|].
    rewrite shiftl_neg by lia.
    replace (- e) with (Z.succ (- (e + 1))) by lia.
    rewrite Z.pow_succ_r by lia.
    change (Z.pos 9007199254740992) with (2 * 4503599627370496).
    rewrite Z.div_mul_cancel_l; [reflexivity| |lia].
    apply Z.pow_nonzero; lia.
  - assert (Hd : Z.pos (digits2_pos p) = 53) by (apply digits_unique; lia).
    unfold shr_fexp. cbn [Zdigits2]. rewrite Hd, fexp_normal by lia.
    replace (53 + e - 53 - e) with 0 by lia.
    cbn [shr shr_record_of_loc shr_m].
    destruct (Z.leb_spec e (emax - prec)) as [_|H]; [|unfold emax, prec in H; lia].
    cbn [sf_floor cond_Zopp]. rewrite shiftl_neg by lia. reflexivity.
Qed.

(** Rounding a quotient of 53 or 54 digits does not move its integer part,
    unless the quotient sits just under an integer. *)
Lemma round_floor (q e : Z) (l : location) :
  2 ^ 52 <= q < 2 ^ 54 -> -1074 <= e <= -1 ->
  q mod 2 ^ (- e) <> 2 ^ (- e) - 1 ->
  sf_floor (binary_round_aux prec emax false q e l) = Some (q / 2 ^ (- e)).
Proof.
  intros Hq He Hmod. destruct q as [|p|p]; [lia| |lia].
  set (T := 2 ^ (- e)) in *.
  assert (HT : 0 < T) by (apply Z.pow_pos_nonneg; lia).
  unfold binary_round_aux.
  destruct (Z_lt_le_dec (Z.pos p) (2 ^ 53)) as [Hlt|Hge].
  - assert (Hd : Z.pos (digits2_pos p) = 53) by (apply digits_unique; lia).
    unfold shr_fexp at 1. cbn [Zdigits2]. rewrite Hd, fexp_normal by lia.
    replace (53 + e - 53 - e) with 0 by lia. cbn [shr].
    rewrite loc_of_shr_record_of_loc.
    replace (shr_m (shr_record_of_loc (Z.pos p) l)) with (Z.pos p)
      by (destruct l as [|[| |]]; reflexivity).
    pose proof (round_nearest_even_range (Z.pos p) l) as Hr.
    set (m1 := round_nearest_even (Z.pos p) l) in *.
    rewrite final_floor by lia. fold T. f_equal.
    assert (Hm1 : m1 = Z.pos p \/ m1 = Z.pos p + 1) by lia.
    destruct Hm1 as [->| ->]; [reflexivity|].
    pose proof (Z.div_mod (Z.pos p) T ltac:(lia)) as Hdm.
    pose proof (Z.mod_pos_bound (Z.pos p) T HT) as Hb.
    symmetry. apply (Z.div_unique _ _ _ (Z.pos p mod T + 1)); lia.
  - assert (Hd : Z.pos (digits2_pos p) = 54) by (apply digits_unique; lia).
    unfold shr_fexp at 1. cbn [Zdigits2]. rewrite Hd, fexp_normal by lia.
    replace (54 + e - 53 - e) with 1 by lia. cbn [shr SpecFloat.iter_pos].
    destruct (shr_1_round p l) as [Hm0 Hm1].
    set (mrs := shr_1 (shr_record_of_loc (Z.pos p) l)) in *.
    set (m1 := round_nearest_even (shr_m mrs) (loc_of_shr_record mrs)) in *.
    pose proof (Z.div_mod (Z.pos p) 2 ltac:(lia)) as Hp2.
    pose proof (Z.mod_pos_bound (Z.pos p) 2 ltac:(lia)) as Hb2.
    assert (HT2 : T = 2 * 2 ^ (- (e + 1))).
    { unfold T. replace (- e) with (Z.succ (- (e + 1))) by lia.
      rewrite Z.pow_succ_r by lia. reflexivity. }
    set (T' := 2 ^ (- (e + 1))) in *.
    assert (HT' : 0 < T') by (apply Z.pow_pos_nonneg; lia).
    rewrite final_floor by lia. fold T'. f_equal.
    assert (Hq2 : Z.pos p / T = (Z.pos p / 2) / T').
    { rewrite HT2, Z.div_div by lia. reflexivity. }
    rewrite Hq2. destruct Hm1 as [->|[-> Hodd]]; [reflexivity|].
    pose proof (Z.div_mod (Z.pos p / 2) T' ltac:(lia)) as Hdm.
    pose proof (Z.mod_pos_bound (Z.pos p / 2) T' HT') as Hb.
    apply Z.odd_spec in Hodd as [j Hj].
    assert (Hne : (Z.pos p / 2) mod T' <> T' - 1).
    { intros Heq. apply Hmod.
      symmetry. apply Z.mod_unique with (q := (Z.pos p / 2) / T'); lia. }
    symmetry. apply (Z.div_unique _ _ _ ((Z.pos p / 2) mod T' + 1)); lia.
Qed.

(** The integer core: a quotient scaled by a power of two above the divisor
    never sits just under a multiple of that power. *)
Lemma scaled_quotient (c b T : Z) :
  0 <= c -> 0 < b < T ->
  (c * T / b) / T = c / b /\ (c * T / b) mod T <> T - 1.
Proof.
  intros Hc Hb.
  assert (Hq : (c * T / b) / T = c / b).
  { rewrite Z.div_div by lia. rewrite Z.div_mul_cancel_r by lia. reflexivity. }
  split; [exact Hq|]. intros Hmod.
  pose proof (Z.div_mod (c * T / b) T ltac:(lia)) as H1.
  pose proof (Z.div_mod (c * T) b ltac:(lia)) as H2.
  pose proof (Z.mod_pos_bound (c * T) b ltac:(lia)) as B2.
  pose proof (Z.div_mod c b ltac:(lia)) as H3.
  pose proof (Z.mod_pos_bound c b ltac:(lia)) as B3.
  rewrite Hq, Hmod in H1.
  set (k := c / b) in *. set (q := c * T / b) in *.
  set (r := (c * T) mod b) in *. set (s := c mod b) in *.
  (* c T = b (T k + T - 1) + r  and  c = b k + s *)
  assert (T * (s - b) = r - b) by nia.
  assert (s - b <= -1) by lia.
  nia.
Qed.

Lemma SFdiv_floor (mc mb : positive) (ec eb c b : Z) :
  Z.pos (digits2_pos mc) = 53 -> Z.pos (digits2_pos mb) = 53 ->
  -52 <= ec <= 0 -> -52 <= eb <= 0 ->
  0 < c -> 0 < b ->
  Z.pos mc = c * 2 ^ (- ec) -> Z.pos mb = b * 2 ^ (- eb) ->
  sf_floor (SFdiv prec emax (S754_finite false mc ec) (S754_finite false mb eb))
  = Some (c / b).
Proof.
  intros Hdc Hdb Hec Heb Hc Hb Hmc Hmb.
  pose proof (size_bounds mc) as Bc. rewrite <- digits2_pos_size, Hdc in Bc.
  pose proof (size_bounds mb) as Bb. rewrite <- digits2_pos_size, Hdb in Bb.
  unfold SFdiv, SFdiv_core_binary. cbn [Zdigits2 xorb]. zdef.
  rewrite Hdc, Hdb.
  replace (53 + ec - (53 + eb)) with (ec - eb) by lia.
  rewrite fexp_normal by lia.
  rewrite Z.min_l by lia.
  replace (ec - eb - (ec - eb - 53)) with 53 by lia.
  cbn match.
  set (T := 2 ^ (53 + eb - ec)).
  set (Sc := 2 ^ (- eb)).
  assert (HS : 0 < Sc) by (apply Z.pow_pos_nonneg; lia).
  assert (HT : 0 < T) by (apply Z.pow_pos_nonneg; lia).
  assert (HTS : 2 ^ (- ec) * 2 ^ 53 = T * Sc).
  { unfold T, Sc. rewrite <- !Z.pow_add_r by lia. f_equal. lia. }
  assert (HbT : b < T).
  { assert (b * Sc < 2 ^ 53) by (fold Sc in Hmb; lia).
    assert (2 ^ 53 <= T * Sc).
    { rewrite <- HTS. assert (0 < 2 ^ (- ec)) by (apply Z.pow_pos_nonneg; lia).
      assert (0 < 2 ^ 53) by lia. nia. }
    nia. }
  rewrite Z.shiftl_mul_pow2 by lia.
  assert (Hnum : Z.pos mc * 2 ^ 53 = (c * T) * Sc) by (rewrite Hmc; nia).
  assert (Hden : Z.pos mb = b * Sc) by exact Hmb.
  pose proof (Z.div_eucl_eq (Z.pos mc * 2 ^ 53) (Z.pos mb) ltac:(lia)) as Heucl.
  pose proof (Z.mod_pos_bound (Z.pos mc * 2 ^ 53) (Z.pos mb) ltac:(lia)) as Hrb.
  unfold Z.modulo in Hrb.
  assert (Hqd : fst (Z.div_eucl (Z.pos mc * 2 ^ 53) (Z.pos mb)) = c * T / b).
  { change (fst (Z.div_eucl (Z.pos mc * 2 ^ 53) (Z.pos mb)))
      with (Z.pos mc * 2 ^ 53 / Z.pos mb).
    rewrite Hnum, Hden. apply Z.div_mul_cancel_r; lia. }
  destruct (Z.div_eucl (Z.pos mc * 2 ^ 53) (Z.pos mb)) as [q r]. cbn [fst] in Hqd.
  destruct (scaled_quotient c b T ltac:(lia) ltac:(lia)) as [Hq Hmod].
  rewrite <- Hqd in Hq, Hmod.
  assert (Hqr : 2 ^ 52 <= q < 2 ^ 54) by nia.
  replace (ec - eb - 53) with (- (53 + eb - ec)) by lia.
  rewrite round_floor.
  - rewrite Z.opp_involutive. fold T. rewrite Hq. reflexivity.
  - exact Hqr.
  - lia.
  - rewrite Z.opp_involutive. exact Hmod.
Qed.

(** A positive integer below 2^53 is a float, exactly. *)
Lemma normalize_exact (n : Z) :
  0 < n < 2 ^ 53 ->
  exists m e,
    binary_normalize prec emax n 0 false = S754_finite false m e
    /\ Z.pos (digits2_pos m) = 53
    /\ -52 <= e <= 0
    /\ Z.pos m = n * 2 ^ (- e).
Proof.
  intros Hn. destruct n as [|p|p]; [lia| |lia].
  pose proof (size_bounds p) as Hb. rewrite <- digits2_pos_size in Hb.
  set (d := Z.pos (digits2_pos p)) in *.
  assert (Hd1 : 0 < d) by (unfold d; lia).
  assert (Hd : d <= 53).
  { assert (d - 1 < 53) by (apply (Z.pow_lt_mono_r_iff 2); lia). lia. }
  destruct (normalize_small p d eq_refl Hd) as (m & Hm & Hv & Hdm).
  exists m, (d - 53). split; [exact Hm|]. split; [exact Hdm|]. split; [lia|].
  rewrite Hv. f_equal. f_equal. lia.
Qed.

Lemma valid_normal (m : positive) (e : Z) :
  Z.pos (digits2_pos m) = 53 -> -52 <= e <= 0 ->
  valid_binary (S754_finite false m e) = true.
Proof.
  intros Hd He. unfold SpecFloat.valid_binary, bounded, canonical_mantissa. zdef.
  rewrite Hd, fexp_normal by lia.
  apply andb_true_intro. split; [apply Z.eqb_eq; lia | apply Z.leb_le; unfold emax, prec; lia].
Qed.

Lemma steps_per_epoch_exact (count batch_size : Z) :
  0 < count < 2 ^ 53 -> 0 < batch_size < 2 ^ 53 ->
  steps_per_epoch count batch_size = Some (count / batch_size).
Proof.
  intros Hc Hb.
  destruct (normalize_exact count Hc) as (mc & ec & Hnc & Hdc & Hec & Hmc).
  destruct (normalize_exact batch_size Hb) as (mb & eb & Hnb & Hdb & Heb & Hmb).
  unfold steps_per_epoch, py_float. rewrite Hnc, Hnb. cbn [mbind option_bind].
  unfold py_truediv. rewrite FloatAxioms.eqb_spec.
  rewrite (Prim2SF_SF2Prim _ (valid_normal mb eb Hdb Heb)).
  change (SFeqb (S754_finite false mb eb) (Prim2SF 0)) with false.
  cbn match. cbn [mbind option_bind].
  unfold math_floor. rewrite FloatAxioms.div_spec. unfold SF64div.
  rewrite (Prim2SF_SF2Prim _ (valid_normal mb eb Hdb Heb)).
  rewrite (Prim2SF_SF2Prim _ (valid_normal mc ec Hdc Hec)).
  apply (SFdiv_floor mc mb ec eb count batch_size); lia || assumption.
Qed.

(** C3. The training driver's steps per epoch are the floor of the example
    count over the batch size, for the training and for the validation
    split: for every batch size from 1 up to 2^53 the float computation of
    lines 207-208 returns the integer quotient, which is 1348 for the 86317
    training examples and 168 for the 10778 validation examples at the
    default batch size of 64. *)
Theorem steps_per_epoch_floor (a : args) :
  0 < batch_size a < 2 ^ 53 ->
  train_steps_per_epoch a = Some (NUM_TRAIN / batch_size a)
  /\ val_steps_per_epoch a = Some (NUM_VAL / batch_size a)
  /\ steps_per_epoch 86317 64 = Some 1348
  /\ steps_per_epoch 10778 64 = Some 168
  /\ train_steps_per_epoch default_args = Some 1348
  /\ val_steps_per_epoch default_args = Some 168.
Proof.
  intros Hb. unfold train_steps_per_epoch, val_steps_per_epoch.
  split; [|split].
  - apply steps_per_epoch_exact; [unfold NUM_TRAIN; lia | exact Hb].
  - apply steps_per_epoch_exact; [unfold NUM_VAL; lia | exact Hb].
  - repeat split; vm_compute; reflexivity.
Qed.

Lemma steps_per_epoch_floor_witness :
  train_steps_per_epoch default_args = Some (NUM_TRAIN / 64)
  /\ val_steps_per_epoch default_args = Some (NUM_VAL / 64)
  /\ NUM_TRAIN / 64 = 1348
  /\ NUM_VAL / 64 = 168.
Proof.
  assert (Hb : 0 < batch_size default_args < 2 ^ 53) by (vm_compute; split; reflexivity).
  destruct (steps_per_epoch_floor default_args Hb) as (Ht & Hv & _).
  split; [exact Ht|]. split; [exact Hv|]. split; reflexivity.
Defined.

(** A batch size of zero makes the division raise, and a batch size beyond
    the largest float makes the conversion raise. *)
Lemma steps_per_epoch_raises :
  steps_per_epoch NUM_TRAIN 0 = None /\ steps_per_epoch NUM_TRAIN (2 ^ 1024) = None.
Proof. split; vm_compute; reflexivity. Qed.

(** * Further properties of the code *)

(** ** Strings *)

Lemma startswith_spec (s t : string) :
  startswith s t = true <-> exists u, s = (t +:+ u)%string.
Proof.
  unfold startswith. revert s. induction t as [|c t IH]; intros s.
  - destruct s; cbn; split; eauto.
  - destruct s as [|d s]; cbn.
    + split; [discriminate | intros [u [=]]].
    + destruct (Ascii.ascii_dec c d) as [->|Hne].
      * rewrite IH. split; intros [u Hu]; exists u; [rewrite Hu; reflexivity|].
        injection Hu as ->. reflexivity.
      * split; [discriminate|]. intros [u [= <- _]]. contradiction.
Qed.

Lemma endswith_spec (s t : string) :
  endswith s t = true <-> exists u, s = (u +:+ t)%string.
Proof.
  induction s as [|c s IH]; cbn [endswith].
  - rewrite orb_false_r, String.eqb_eq. split.
    + intros <-. exists EmptyString. reflexivity.
    + intros [[|d u] Hu]; [exact Hu | discriminate].
  - rewrite orb_true_iff, String.eqb_eq, IH. split.
    + intros [<-|[u ->]]; [exists EmptyString | exists (String c u)]; reflexivity.
    + intros [[|d u] Hu]; [left; exact Hu|].
      injection Hu as <- ->. right. eauto.
Qed.

Lemma string_app_assoc (a b c : string) : ((a +:+ b) +:+ c = a +:+ (b +:+ c))%string.
Proof.
  induction a as [|x a IH]; [reflexivity|].
  change (String x ((a +:+ b) +:+ c) = String x (a +:+ (b +:+ c))). rewrite IH. reflexivity.
Qed.

Lemma string_length_app (a b : string) :
  String.length (a +:+ b) = (String.length a + String.length b)%nat.
Proof.
  induction a as [|x a IH]; [reflexivity|].
  change (S (String.length (a +:+ b)) = S (String.length a + String.length b)).
  rewrite IH. reflexivity.
Qed.

(** Of two suffixes of one string, the shorter is a suffix of the longer. *)
Lemma suffix_of_suffix (u a w b : string) :
  (u +:+ a = w +:+ b)%string ->
  (String.length b <= String.length a)%nat ->
  exists x, a = (x +:+ b)%string.
Proof.
  revert w. induction u as [|c u IH]; intros w Heq Hlen.
  - exists w. exact Heq.
  - destruct w as [|d w].
    + change (String c (u +:+ a) = b) in Heq. subst b.
      change (S (String.length (u +:+ a)) <= String.length a)%nat in Hlen.
      rewrite string_length_app in Hlen. lia.
    + change (String c (u +:+ a) = String d (w +:+ b)) in Heq.
      injection Heq as _ Heq. apply (IH w Heq Hlen).
Qed.

(** ** Listing the record files *)

Lemma file_loop (folderpath : string) (names acc : list string) :
  foldl (fun filelist filename =>
           if startswith filename "part-" && negb (endswith filename "gstmp")
           then filelist ++ [os_path_join folderpath filename]
           else filelist)
        acc names
  = acc ++ (os_path_join folderpath <$> List.filter is_part_file names).
Proof.
  revert acc. induction names as [|n names IH]; intros acc; cbn [foldl List.filter].
  - cbn. rewrite app_nil_r. reflexivity.
  - rewrite IH. unfold is_part_file at 2.
    destruct (startswith n "part-" && negb (endswith n "gstmp")); [|reflexivity].
    cbn. rewrite <- app_assoc. reflexivity.
Qed.

Lemma file_list_from_folder_eq (listdir : string -> option (list string))
    (folder data_path : string) :
  file_list_from_folder listdir folder data_path
  = (fun names => os_path_join (os_path_join data_path folder)
                    <$> List.filter is_part_file names)
    <$> listdir (os_path_join data_path folder).
Proof.
  unfold file_list_from_folder. destruct (listdir _) as [names|]; [|reflexivity].
  cbn. rewrite file_loop. reflexivity.
Qed.

(** A kept name is joined to the folder as it is: it is not absolute. *)
Lemma join_part_file (folderpath filename : string) :
  startswith filename "part-" = true ->
  exists sep, (sep = "" \/ sep = "/")%string
              /\ os_path_join folderpath filename = (folderpath +:+ sep +:+ filename)%string.
Proof.
  intros Hp. apply startswith_spec in Hp as [u ->]. unfold os_path_join.
  change (startswith ("part-" +:+ u) "/") with false. cbn match.
  destruct (_ || _).
  - exists ""%string. split; [left|]; reflexivity.
  - exists "/"%string. split; [right|]; reflexivity.
Qed.

(** X1. The files [file_list_from_folder] returns: in the order of the listing,
    one path per name that starts with [part-] and does not end with
    [gstmp], and nothing else; each path lies under the folder, ends with
    its file name and does not end with [gstmp]. *)
Theorem file_list_from_folder_files (listdir : string -> option (list string))
    (folder data_path : string) (names files : list string) :
  listdir (os_path_join data_path folder) = Some names ->
  file_list_from_folder listdir folder data_path = Some files ->
  let folderpath := os_path_join data_path folder in
  files = os_path_join folderpath <$> List.filter is_part_file names
  /\ (length files <= length names)%nat
  /\ (forall p, p ∈ files <->
        exists name, name ∈ names
                     /\ startswith name "part-" = true
                     /\ endswith name "gstmp" = false
                     /\ p = os_path_join folderpath name)
  /\ (forall p, p ∈ files ->
        startswith p folderpath = true
        /\ endswith p "gstmp" = false
        /\ exists name, name ∈ names /\ endswith p name = true).
Proof.
  intros Hdir Hfiles folderpath. rewrite file_list_from_folder_eq, Hdir in Hfiles.
  cbn in Hfiles. injection Hfiles as <-. fold folderpath.
  assert (Hmem : forall p, p ∈ os_path_join folderpath <$> List.filter is_part_file names <->
            exists name, name ∈ names /\ startswith name "part-" = true
                         /\ endswith name "gstmp" = false
                         /\ p = os_path_join folderpath name).
  { intros p. rewrite list_elem_of_fmap. split.
    - intros (name & -> & Hname). apply list_elem_of_In, filter_In in Hname as [Hin Hpart].
      unfold is_part_file in Hpart. apply andb_prop in Hpart as [H1 H2].
      apply negb_true_iff in H2. exists name. rewrite list_elem_of_In. auto.
    - intros (name & Hin & H1 & H2 & ->). exists name. split; [reflexivity|].
      apply list_elem_of_In, filter_In. split; [apply list_elem_of_In, Hin|].
      unfold is_part_file. rewrite H1, H2. reflexivity. }
  split; [reflexivity|]. split.
  { rewrite length_fmap. apply List.filter_length_le. }
  split; [exact Hmem|].
  intros p Hp. apply Hmem in Hp as (name & Hin & H1 & H2 & ->).
  destruct (join_part_file folderpath name H1) as (sep & _ & ->).
  split; [apply startswith_spec; eauto|]. split.
  - destruct (endswith (folderpath +:+ sep +:+ name) "gstmp") eqn:He; [|reflexivity].
    apply endswith_spec in He as [w Hw].
    rewrite <- string_app_assoc in Hw.
    apply suffix_of_suffix in Hw as [x Hx].
    + assert (endswith name "gstmp" = true) by (apply endswith_spec; eauto). congruence.
    + apply startswith_spec in H1 as [u ->]. rewrite string_length_app. cbn. lia.
  - exists name. split; [exact Hin|]. apply endswith_spec.
    exists (folderpath +:+ sep)%string. rewrite string_app_assoc. reflexivity.
Qed.

Lemma file_list_from_folder_files_witness :
  file_list_from_folder sample_listdir "train" "data"
  = Some ["data/train/part-r-00000"; "data/train/part-r-00002"]%string
  /\ forall p, p ∈ ["data/train/part-r-00000"; "data/train/part-r-00002"]%string ->
       startswith p "data/train" = true /\ endswith p "gstmp" = false.
Proof.
  assert (Hdir : sample_listdir (os_path_join "data" "train")
                 = Some ["part-r-00000"; "part-r-00001.gstmp"; "_SUCCESS"; "part-r-00002"]%string)
    by reflexivity.
  assert (Hfiles : file_list_from_folder sample_listdir "train" "data"
                   = Some ["data/train/part-r-00000"; "data/train/part-r-00002"]%string)
    by reflexivity.
  split; [exact Hfiles|].
  destruct (file_list_from_folder_files sample_listdir "train" "data" _ _ Hdir Hfiles)
    as (_ & _ & _ & Hp).
  intros p Hin. destruct (Hp p Hin) as (H1 & H2 & _). split; assumption.
Defined.

(** X2. [load_data] fails exactly when one of the two folders is missing; a
    folder that is there gives its part files, and none when it holds none:
    an empty folder is no error. *)
Theorem load_data_folders (listdir : string -> option (list string)) (data_path : string) :
  let train_path := os_path_join data_path "train" in
  let val_path := os_path_join data_path "val" in
  load_data listdir data_path
  = match listdir train_path, listdir val_path with
    | Some train_names, Some val_names =>
        Some (os_path_join train_path <$> List.filter is_part_file train_names,
              os_path_join val_path <$> List.filter is_part_file val_names)
    | _, _ => None
    end
  /\ (load_data listdir data_path = None
      <-> listdir train_path = None \/ listdir val_path = None)
  /\ (listdir train_path = Some [] -> listdir val_path = Some [] ->
      load_data listdir data_path = Some ([], [])).
Proof.
  intros train_path val_path.
  assert (Heq : load_data listdir data_path
                = match listdir train_path, listdir val_path with
                  | Some train_names, Some val_names =>
                      Some (os_path_join train_path <$> List.filter is_part_file train_names,
                            os_path_join val_path <$> List.filter is_part_file val_names)
                  | _, _ => None
                  end).
  { unfold load_data. rewrite !file_list_from_folder_eq. fold train_path val_path.
    destruct (listdir train_path); [|reflexivity].
    destruct (listdir val_path); reflexivity. }
  split; [exact Heq|]. rewrite Heq. split.
  - destruct (listdir train_path); destruct (listdir val_path); split;
      try discriminate; try tauto; intros [H|H]; discriminate.
  - intros -> ->. reflexivity.
Qed.

(** ** Failures of the per-record transform *)

Lemma stack_bands_key_fails (example : gmap string value) (keylist : list string)
    (key : string) :
  key ∈ keylist -> example !! key ≫= getband = None -> stack_bands example keylist = None.
Proof.
  intros Hin Hkey. unfold stack_bands.
  rewrite (mapM_None_2 (fun key => example !! key ≫= getband) keylist); [reflexivity|].
  apply Exists_exists. eauto.
Qed.

Lemma parse_key_fails (r : gmap string feature) (keylist : list string) (key : string) :
  key ∈ keylist ->
  (forall example, parse_single_example r features = Some example ->
                   example !! key ≫= getband = None) ->
  _parse_ r keylist = None.
Proof.
  intros Hin Hkey. unfold _parse_.
  destruct (parse_single_example r features) as [example|] eqn:Hparse; [|reflexivity].
  cbn [mbind option_bind].
  rewrite (stack_bands_key_fails example keylist key Hin (Hkey example eq_refl)).
  reflexivity.
Qed.

(** X3. A key outside the schema cannot be selected, whatever the record holds
    under it: the parsed example has no such entry. *)
Theorem parse_unknown_key (r : gmap string feature) (keylist : list string) (key : string) :
  key ∈ keylist -> features !! key = None -> _parse_ r keylist = None.
Proof.
  intros Hin Hkey. apply (parse_key_fails r keylist key Hin).
  intros example Hparse. rewrite (parsed_outside r example Hparse key Hkey). reflexivity.
Qed.

Lemma parse_unknown_key_witness : _parse_ (sample_record 0) ["B2"; "B99"]%string = None.
Proof.
  apply (parse_unknown_key (sample_record 0) ["B2"; "B99"]%string "B99"%string).
  - rewrite !elem_of_cons. tauto.
  - vm_compute. reflexivity.
Defined.

(** X4. Selecting the label field as a band always fails: it is not a byte
    string. *)
Theorem parse_label_as_band (r : gmap string feature) (keylist : list string) :
  "label"%string ∈ keylist -> _parse_ r keylist = None.
Proof.
  intros Hin. apply (parse_key_fails r keylist "label"%string Hin).
  intros example Hparse.
  pose proof (parsed_well_formed r example Hparse) as Hwf.
  apply well_formed_fields in Hwf as [_ [l Hl]].
  rewrite (parsed_label r example Hparse l Hl). reflexivity.
Qed.

Lemma parse_label_as_band_witness :
  _parse_ (sample_record 0) ["B2"; "label"]%string = None.
Proof.
  apply (parse_label_as_band (sample_record 0) ["B2"; "label"]%string).
  rewrite !elem_of_cons. tauto.
Defined.

(** X5. A selected band whose payload is shorter than [IMG_DIM ^ 2] bytes makes
    the transform fail. *)
Theorem parse_short_band (r : gmap string feature) (keylist : list string)
    (key : string) (bs : list byte) :
  key ∈ keylist ->
  payload_of r key = Some bs ->
  (length bs < IMG_DIM ^ 2)%nat ->
  _parse_ r keylist = None.
Proof.
  intros Hin Hbs Hlen. apply (parse_key_fails r keylist key Hin).
  intros example Hparse. rewrite (parsed_lookup r example Hparse key).
  destruct (features !! key) as [spec|] eqn:Hspec; [|reflexivity].
  cbn [mbind option_bind]. apply payload_of_Some in Hbs. rewrite Hbs.
  apply features_lookup in Hspec as [[_ ->]|[_ ->]]; [|reflexivity].
  change (parse_feature string_scalar (Some (BytesList [bs]))) with (Some (scalar_string bs)).
  cbn [mbind option_bind]. apply getband_short, Hlen.
Qed.

(** X6. Every field of the schema has to be in the record, with one value of
    its type, also the bands that are not selected. *)
Theorem parse_missing_field (r : gmap string feature) (keylist : list string)
    (key : string) (spec : FixedLenFeature) :
  features !! key = Some spec ->
  parse_feature spec (r !! key) = None ->
  _parse_ r keylist = None.
Proof.
  intros Hspec Hnone. unfold _parse_.
  destruct (parse_single_example r features) as [example|] eqn:Hparse; [|reflexivity].
  pose proof (parsed_well_formed r example Hparse key spec Hspec) as Hwf.
  cbn beta in Hwf. rewrite Hnone in Hwf. destruct Hwf as [? [=]].
Qed.

Lemma parse_missing_field_witness :
  _parse_ (delete "B11"%string (sample_record 0)) default_keylist = None.
Proof.
  apply (parse_missing_field _ default_keylist "B11"%string string_scalar);
    vm_compute; reflexivity.
Defined.

Lemma parse_short_band_witness :
  _parse_ (<[ "B3"%string := BytesList [replicate 4224 "003"%byte] ]> (sample_record 0))
          default_keylist = None.
Proof.
  apply (parse_short_band _ default_keylist "B3"%string (replicate 4224 "003"%byte)).
  - unfold default_keylist. rewrite !elem_of_cons. tauto.
  - reflexivity.
  - vm_compute. lia.
Defined.

(** ** What the transform reads of a record *)

Lemma parse_single_example_agree (r1 r2 : gmap string feature)
    (fs : gmap string FixedLenFeature) :
  (forall k, is_Some (fs !! k) -> r1 !! k = r2 !! k) ->
  parse_single_example r1 fs = parse_single_example r2 fs.
Proof.
  intros Hagree. unfold parse_single_example.
  assert (Himap : map_imap (fun k spec => parse_feature spec (r1 !! k)) fs
                  = map_imap (fun k spec => parse_feature spec (r2 !! k)) fs).
  { apply map_eq. intros k. rewrite !map_lookup_imap.
    destruct (fs !! k) as [spec|] eqn:Hk; [|reflexivity].
    cbn [mbind option_bind]. rewrite (Hagree k); [reflexivity | eauto]. }
  rewrite Himap.
  destruct (decide _) as [H1|H1]; destruct (decide _) as [H2|H2]; try reflexivity; exfalso.
  - apply H2. intros k spec Hk. rewrite <- (Hagree k) by eauto. apply (H1 k spec Hk).
  - apply H1. intros k spec Hk. rewrite (Hagree k) by eauto. apply (H2 k spec Hk).
Qed.

(** X7. The transform reads the twelve fields of the schema and nothing else:
    records that agree on them give the same result for every key list. *)
Theorem parse_reads_schema_only (r1 r2 : gmap string feature) (keylist : list string) :
  (forall k, is_Some (features !! k) -> r1 !! k = r2 !! k) ->
  _parse_ r1 keylist = _parse_ r2 keylist.
Proof.
  intros Hagree. unfold _parse_.
  rewrite (parse_single_example_agree r1 r2 features Hagree). reflexivity.
Qed.

Lemma parse_reads_schema_only_witness :
  _parse_ (<[ "B12"%string := Int64List [1; 2] ]> (sample_record 2)) default_keylist
  = _parse_ (sample_record 2) default_keylist.
Proof.
  apply parse_reads_schema_only. intros k [spec Hk].
  apply lookup_insert_ne. intros <-. discriminate.
Defined.

(** ** When the transform succeeds *)

Lemma getband_Some_string (v : value) (g : tensor Z) :
  getband v = Some g -> exists t, v = VString t.
Proof. destruct v as [t| |]; [eauto | discriminate | discriminate]. Qed.

Lemma parsed_band_ready (r : gmap string feature) (example : gmap string value)
    (key : string) (g : tensor Z) :
  parse_single_example r features = Some example ->
  example !! key ≫= getband = Some g ->
  band_ready r key.
Proof.
  intros Hparse Hg. rewrite (parsed_lookup r example Hparse key) in Hg.
  destruct (features !! key) as [spec|] eqn:Hspec; [|discriminate].
  cbn [mbind option_bind] in Hg.
  pose proof (parsed_well_formed r example Hparse) as Hwf.
  apply well_formed_fields in Hwf as [Hbands [l Hl]].
  apply features_lookup in Hspec as [[Hkey ->]|[-> ->]].
  - split; [exact Hkey|]. destruct (Hbands key Hkey) as [bs Hbs]. exists bs.
    split; [exact Hbs|]. apply payload_of_Some in Hbs. rewrite Hbs in Hg.
    change (parse_feature string_scalar (Some (BytesList [bs])))
      with (Some (scalar_string bs)) in Hg.
    cbn [mbind option_bind] in Hg.
    destruct (le_lt_dec (IMG_DIM ^ 2) (length bs)) as [Hle|Hlt]; [exact Hle|].
    rewrite (getband_short bs Hlt) in Hg. discriminate.
  - rewrite Hl in Hg. discriminate.
Qed.

(** X8. The transform succeeds exactly on the records that hold every field of
    the schema, with a key list that is not empty and names only band fields
    whose payloads have at least [IMG_DIM ^ 2] bytes. *)
Theorem parse_succeeds_iff (r : gmap string feature) (keylist : list string) :
  is_Some (_parse_ r keylist)
  <-> well_formed r /\ keylist <> [] /\ Forall (band_ready r) keylist.
Proof.
  split.
  - intros [out Hout].
    destruct (parse_image r keylist out Hout) as (example & image & Hparse & Hs & _).
    split; [apply (parsed_well_formed r example Hparse)|].
    split; [apply (stack_bands_shape example keylist image Hs)|].
    unfold stack_bands in Hs.
    destruct (mapM _ keylist) as [grids|] eqn:Hm; [|discriminate].
    apply mapM_Some_1 in Hm. clear Hs Hout.
    induction Hm as [|key g keys gs Hg _ IH]; constructor.
    + apply (parsed_band_ready r example key g Hparse Hg).
    + exact IH.
  - intros (Hwf & Hne & Hready).
    pose proof Hwf as Hwf'. apply well_formed_fields in Hwf' as [_ [l Hl]].
    destruct (parse_selected r keylist l Hwf Hl Hne Hready) as (image & Hp & _).
    rewrite Hp. eauto.
Qed.

(** ** The label vector *)

(** X9. Reading the label back: position [j] of the label vector holds 1.0
    exactly when [j] is the 32-bit value of the stored label and that value
    is a class; every other position holds 0.0. *)
Theorem encode_label_decode (l : Z) (j : nat) :
  shape (encode_label (Tensor [] [l])) = [NUM_CLASSES]
  /\ length (data (encode_label (Tensor [] [l]))) = NUM_CLASSES
  /\ (data (encode_label (Tensor [] [l])) !! j = Some 1%float
      <-> 0 <= wrap_int32 l < Z.of_nat NUM_CLASSES /\ j = Z.to_nat (wrap_int32 l))
  /\ ((j < NUM_CLASSES)%nat ->
      data (encode_label (Tensor [] [l])) !! j = Some 1%float
      \/ data (encode_label (Tensor [] [l])) !! j = Some 0%float).
Proof.
  rewrite encode_label_scalar. cbn [shape data].
  split; [reflexivity|]. split; [apply length_one_hot_row|]. split.
  - destruct (decide (j < NUM_CLASSES)%nat) as [Hj|Hj].
    + rewrite one_hot_row_lookup by exact Hj.
      destruct (Z.eqb_spec (Z.of_nat j) (wrap_int32 l)) as [He|Hne].
      * unfold NUM_CLASSES in *. split; [intros _; lia | reflexivity].
      * split; [discriminate | lia].
    + rewrite lookup_ge_None_2 by (rewrite length_one_hot_row; lia).
      split; [discriminate | lia].
  - intros Hj. rewrite one_hot_row_lookup by exact Hj.
    destruct (Z.eqb (Z.of_nat j) (wrap_int32 l)); auto.
Qed.

Lemma wrap_int32_range (z : Z) : - 2 ^ 31 <= wrap_int32 z < 2 ^ 31.
Proof.
  unfold wrap_int32. pose proof (Z.mod_pos_bound (z + 2 ^ 31) (2 ^ 32) ltac:(lia)). lia.
Qed.

(** X10. The cast to 32 bits: stored labels that differ by a multiple of 2^32 get
    the same label vector, and a stored label that fits 32 bits is kept. *)
Theorem encode_label_wraps (l k : Z) :
  encode_label (Tensor [] [l + k * 2 ^ 32]) = encode_label (Tensor [] [l])
  /\ - 2 ^ 31 <= wrap_int32 l < 2 ^ 31
  /\ (- 2 ^ 31 <= l < 2 ^ 31 -> wrap_int32 l = l).
Proof.
  split; [|split; [apply wrap_int32_range | apply wrap_int32_small]].
  rewrite !encode_label_scalar. f_equal. f_equal. unfold wrap_int32.
  replace (l + k * 2 ^ 32 + 2 ^ 31) with (l + 2 ^ 31 + k * 2 ^ 32) by lia.
  rewrite Z.mod_add by lia. reflexivity.
Qed.

(** ** The samples of the image *)

Lemma take1_drop_lookup {A} (l : list A) (n : nat) :
  take 1 (drop n l) = from_option (fun x => [x]) [] (l !! n).
Proof.
  rewrite <- (Nat.add_0_r n) at 2. rewrite <- lookup_drop.
  destruct (drop n l); reflexivity.
Qed.

Section PlaneSamples.
Context {A : Type}.
Variables h w : nat.
Implicit Types (g : tensor A) (gs : list (tensor A)).

(** The stacked data holds, at position [p] and channel [i], the sample of
    plane [i] at position [p]. *)
Lemma stacked_data_lookup gs i g p :
  Forall (is_plane h w) gs ->
  gs !! i = Some g ->
  (p < h * w)%nat ->
  stacked_data h w gs !! (p * length gs + i)%nat = data g !! p.
Proof.
  intros Hgs Hi Hp.
  assert (Hlt : (i < length gs)%nat) by (eapply lookup_lt_Some; exact Hi).
  assert (Hg : is_plane h w g) by (eapply Forall_lookup_1; [exact Hgs | exact Hi]).
  assert (Hone : take 1 (drop (p * length gs + i) (stacked_data h w gs))
                 = take 1 (drop p (data g))).
  { rewrite take1_in_block by exact Hlt. unfold stacked_data.
    rewrite (flat_map_block _ (length gs)).
    - rewrite lookup_seq_lt by (rewrite numel_plane_lead; lia).
      cbn [from_option]. rewrite (plane_row h w) by exact Hgs.
      rewrite <- (Nat.mul_1_r i) at 1.
      rewrite (flat_map_block _ 1%nat) by (apply (plane_sample_length h w); [lia | exact Hgs]).
      rewrite Hi. reflexivity.
    - apply Forall_forall. intros q Hq. apply elem_of_seq in Hq.
      rewrite numel_plane_lead in Hq.
      rewrite (plane_row h w) by exact Hgs.
      rewrite (length_flat_map_const _ 1%nat)
        by (apply (plane_sample_length h w); [lia | exact Hgs]).
      lia. }
  rewrite !take1_drop_lookup in Hone.
  destruct Hg as [_ Hl].
  destruct (lookup_lt_is_Some_2 (data g) p ltac:(lia)) as [x Hx].
  rewrite Hx in Hone |- *.
  destruct (stacked_data h w gs !! (p * length gs + i)%nat) as [y|];
    cbn [from_option] in Hone; [congruence | discriminate].
Qed.

Lemma length_stacked_data gs :
  Forall (is_plane h w) gs -> length (stacked_data h w gs) = (h * w * length gs)%nat.
Proof.
  intros Hgs. unfold stacked_data.
  rewrite (length_flat_map_const _ (length gs)).
  - rewrite length_seq, numel_plane_lead. reflexivity.
  - apply Forall_forall. intros q Hq. apply elem_of_seq in Hq.
    rewrite numel_plane_lead in Hq.
    rewrite (plane_row h w) by exact Hgs.
    rewrite (length_flat_map_const _ 1%nat)
      by (apply (plane_sample_length h w); [lia | exact Hgs]).
    lia.
Qed.

(** What [tf.concat] returns on planes: as many samples as the planes hold
    together, interleaved channel by channel. *)
Lemma concat_last_planes_data gs img :
  Forall (is_plane h w) gs ->
  concat_last gs = Some img ->
  length (data img) = (h * w * length gs)%nat
  /\ forall i g p, gs !! i = Some g -> (p < h * w)%nat ->
       data img !! (p * length gs + i)%nat = data g !! p.
Proof.
  intros Hgs Himg. destruct gs as [|g1 [|g2 gs]]; [discriminate| |].
  - injection Himg as <-. apply Forall_inv in Hgs as [_ Hl]. split.
    + cbn [length]. lia.
    + intros [|i] g p Hi Hp; [|discriminate]. injection Hi as <-.
      cbn [length]. f_equal. lia.
  - remember (g1 :: g2 :: gs) as l eqn:El.
    assert (Hs1 : shape g1 = [h; w; 1%nat]).
    { subst l. apply Forall_inv in Hgs. apply Hgs. }
    rewrite El in Himg at 1. rewrite concat_last_many, <- El in Himg.
    cbn zeta in Himg. destruct (decide _) as [_|]; [|discriminate].
    injection Himg as <-. cbn [data]. rewrite Hs1.
    change (lead_dims [h; w; 1%nat]) with [h; w].
    change (flat_map _ (seq 0 (numel [h; w]))) with (stacked_data h w l).
    split; [apply length_stacked_data, Hgs|].
    intros i g p Hi Hp. apply stacked_data_lookup; assumption.
Qed.
End PlaneSamples.

Lemma getband_samples (v : value) (g : tensor Z) :
  getband v = Some g -> Forall (fun x => 0 <= x <= 255) (data g).
Proof.
  unfold getband. destruct v as [t| |]; try discriminate.
  unfold decode_raw_uint8.
  assert (Hall : Forall (fun x => 0 <= x <= 255) (flat_map (fmap byte_val) (data t))).
  { apply Forall_forall. intros x Hx.
    apply list_elem_of_In, in_flat_map in Hx as (b & _ & Hx).
    apply list_elem_of_In, list_elem_of_fmap in Hx as (y & -> & _).
    apply byte_val_range. }
  destruct (data t) as [|bs rest] eqn:Hd.
  - cbn [mbind option_bind]. unfold slice_prefix. cbn [shape data].
    destruct (shape t ++ [0%nat]) as [|d0 sh]; [discriminate|].
    cbn [mbind option_bind]. unfold reshape. cbn [data].
    destruct (decide _); [|discriminate]. intros [= <-]. cbn [data].
    rewrite take_nil. constructor.
  - destruct (forallb _ rest); [|discriminate].
    cbn [mbind option_bind]. unfold slice_prefix. cbn [shape data].
    destruct (shape t ++ [length bs]) as [|d0 sh]; [discriminate|].
    cbn [mbind option_bind]. unfold reshape. cbn [data].
    destruct (decide _); [|discriminate]. intros [= <-]. cbn [data].
    apply Forall_take, Hall.
Qed.

(** X11. The image of a parsed record: [IMG_DIM * IMG_DIM] samples per selected
    band, each in [0, 255], with the sample of band [i] at row [row] and
    column [col] at index [(row * IMG_DIM + col) * len(keylist) + i]: it is
    byte [row * IMG_DIM + col] of the payload of the [i]-th key. *)
Theorem parse_image_samples (r : gmap string feature) (keylist : list string)
    (out : gmap string (tensor Z) * tensor float) :
  _parse_ r keylist = Some out ->
  exists image,
    out.1 = {[ "image"%string := image ]}
    /\ shape image = [IMG_DIM; IMG_DIM; length keylist]
    /\ length (data image) = (IMG_DIM * IMG_DIM * length keylist)%nat
    /\ Forall (fun x => 0 <= x <= 255) (data image)
    /\ forall i key bs row col b,
         keylist !! i = Some key ->
         payload_of r key = Some bs ->
         (row < IMG_DIM)%nat -> (col < IMG_DIM)%nat ->
         bs !! (row * IMG_DIM + col)%nat = Some b ->
         data image !! ((row * IMG_DIM + col) * length keylist + i)%nat
         = Some (byte_val b).
Proof.
  intros Hout.
  destruct (parse_image r keylist out Hout) as (example & image & Hparse & Hs & Himg).
  exists image. split; [exact Himg|].
  destruct (stack_bands_shape example keylist image Hs) as [Hne Hsh].
  split; [exact Hsh|].
  pose proof Hs as Hs'. unfold stack_bands in Hs'.
  destruct (mapM _ keylist) as [grids|] eqn:Hm; [|discriminate].
  cbn [mbind option_bind] in Hs'. apply mapM_Some_1 in Hm.
  destruct (stack_bands_grids example keylist grids Hm) as [_ Hplanes].
  assert (Hlen : length keylist = length grids) by (eapply Forall2_length; exact Hm).
  destruct (concat_last_planes_data IMG_DIM IMG_DIM grids image Hplanes Hs') as [Hl Hlook].
  rewrite Hlen. split; [exact Hl|]. split.
  - (* every sample is a sample of some grid *)
    apply Forall_lookup. intros n x Hn.
    assert (Hk : (0 < length grids)%nat).
    { destruct grids; [|cbn; lia]. destruct keylist; [congruence | discriminate]. }
    assert (Hnlt : (n < IMG_DIM * IMG_DIM * length grids)%nat).
    { rewrite <- Hl. eapply lookup_lt_Some. exact Hn. }
    set (k := length grids) in *.
    assert (Hdiv : n = (n / k * k + n mod k)%nat).
    { rewrite (Nat.div_mod n k) at 1 by lia. lia. }
    assert (Hmod : (n mod k < k)%nat) by (apply Nat.mod_upper_bound; lia).
    destruct (lookup_lt_is_Some_2 grids (n mod k) Hmod) as [g Hg].
    assert (Hp : (n / k < IMG_DIM * IMG_DIM)%nat).
    { apply Nat.Div0.div_lt_upper_bound. lia. }
    rewrite Hdiv, (Hlook _ g _ Hg Hp) in Hn.
    destruct (Forall2_lookup_r _ _ _ _ _ Hm Hg) as (key & _ & Hkey).
    destruct (example !! key) as [v|]; [|discriminate].
    pose proof (getband_samples v g Hkey) as Hrange.
    apply (Forall_lookup_1 _ _ _ _ Hrange Hn).
  - intros i key bs row col b Hi Hbs Hrow Hcol Hb.
    destruct (Forall2_lookup_l _ _ _ _ _ Hm Hi) as (g & Hg & Hkey).
    pose proof (parsed_band_ready r example key g Hparse Hkey) as (Hband & bs' & Hbs' & Hlong).
    rewrite Hbs in Hbs'. injection Hbs' as <-.
    rewrite (parsed_band r example Hparse key bs Hband Hbs) in Hkey.
    cbn [mbind option_bind] in Hkey. rewrite (getband_long bs Hlong) in Hkey.
    injection Hkey as <-.
    assert (Hidx : (row * IMG_DIM + col < IMG_DIM ^ 2)%nat).
    { change (IMG_DIM ^ 2)%nat with 4225%nat. unfold IMG_DIM in *. lia. }
    rewrite (Hlook i _ (row * IMG_DIM + col)%nat Hg) by exact Hidx.
    cbn [data]. rewrite list_lookup_fmap, lookup_take_lt by exact Hidx.
    rewrite Hb. reflexivity.
Qed.

Lemma parse_image_samples_witness :
  exists out image,
    _parse_ (sample_record 1) default_keylist = Some out
    /\ out.1 = {[ "image"%string := image ]}
    /\ length (data image) = (IMG_DIM * IMG_DIM * 7)%nat
    /\ Forall (fun x => 0 <= x <= 255) (data image)
    /\ data image !! ((3 * IMG_DIM + 5) * 7 + 2)%nat = Some 4.
Proof.
  destruct (sample_record_parse 1) as (img & Hp & _).
  destruct (parse_image_samples (sample_record 1) default_keylist _ Hp)
    as (image & Hout & _ & Hlen & Hrange & Hpix).
  eexists. exists image. split; [exact Hp|]. split; [exact Hout|].
  split; [exact Hlen|]. split; [exact Hrange|].
  apply (Hpix 2%nat "B4"%string (sample_payload "004"%byte) 3%nat 5%nat "004"%byte).
  - reflexivity.
  - reflexivity.
  - unfold IMG_DIM. lia.
  - unfold IMG_DIM. lia.
  - vm_compute. reflexivity.
Defined.

(** ** The class-weight matrix for other counts *)

(** X12. The four columns are written whatever the class count is: with fewer
    than four classes the function raises, with more the further columns
    stay zero; a negative example count is refused. *)
Theorem class_weights_matrix_with_counts (num_train : Z) (num_classes : nat) :
  class_weights_matrix_with num_train num_classes
  = if (0 <=? num_train) && (4 <=? num_classes)%nat
    then Some (NdArray (Z.to_nat num_train, num_classes)
                 (replicate (Z.to_nat num_train)
                    ([1; 4; 4; 6]%float ++ replicate (num_classes - 4) 0%float)))
    else None.
Proof.
  unfold class_weights_matrix_with, np_zeros.
  destruct (0 <=? num_train); [|reflexivity]. cbn [andb mbind option_bind].
  destruct num_classes as [|[|[|[|m]]]]; try reflexivity.
  change (4 <=? S (S (S (S m))))%nat with true. cbn match.
  rewrite col_iadd_replicate by lia. cbn [mbind option_bind].
  rewrite col_iadd_replicate by lia. cbn [mbind option_bind].
  rewrite col_iadd_replicate by lia. cbn [mbind option_bind].
  rewrite col_iadd_replicate by lia. cbn [mbind option_bind].
  replace (S (S (S (S m))) - 4)%nat with m by lia. reflexivity.
Qed.

(** ** Steps per epoch for any count *)

(** X13. For every example count and batch size between 1 and 2^53 the float
    computation gives the integer quotient: the steps of an epoch cover at
    most the examples there are and leave out fewer than one batch, and
    there is no step at all exactly when the batch is larger than the
    count. *)
Theorem steps_per_epoch_covers (count batch : Z) :
  0 < count < 2 ^ 53 -> 0 < batch < 2 ^ 53 ->
  exists steps,
    steps_per_epoch count batch = Some steps
    /\ steps = count / batch
    /\ steps * batch <= count < (steps + 1) * batch
    /\ (steps = 0 <-> count < batch).
Proof.
  intros Hc Hb. exists (count / batch).
  split; [apply steps_per_epoch_exact; assumption|]. split; [reflexivity|].
  pose proof (Z.div_mod count batch ltac:(lia)) as Hdm.
  pose proof (Z.mod_pos_bound count batch ltac:(lia)) as Hm.
  split; [nia|]. split.
  - intros H0. rewrite H0 in Hdm. lia.
  - intros Hlt. apply Z.div_small. lia.
Qed.

Lemma steps_per_epoch_covers_witness :
  exists steps,
    steps_per_epoch NUM_TRAIN 64 = Some steps
    /\ steps = NUM_TRAIN / 64
    /\ steps * 64 <= NUM_TRAIN < (steps + 1) * 64
    /\ (steps = 0 <-> NUM_TRAIN < 64).
Proof. apply (steps_per_epoch_covers NUM_TRAIN 64); vm_compute; split; reflexivity. Defined.

(** X14. A batch size of zero raises, whatever the example count is. *)
Theorem steps_per_epoch_zero_batch (count : Z) : steps_per_epoch count 0 = None.
Proof.
  unfold steps_per_epoch. destruct (py_float count) as [c|]; [|reflexivity].
  reflexivity.
Qed.

(** ** Splitting a dotted name *)

Lemma split_on_cons (sep : ascii) (s : string) :
  exists w ws, split_on sep s = w :: ws.
Proof.
  destruct s as [|c s]; cbn [split_on]; [eauto|].
  destruct (Ascii.eqb c sep); [eauto|].
  destruct (split_on sep s); eauto.
Qed.

(** X15. [sep.join(s.split(sep))] is [s], and no component holds the separator. *)
Theorem split_on_join (sep : ascii) (s : string) :
  String.concat (String sep EmptyString) (split_on sep s) = s
  /\ Forall (fun w => ~ In sep (String.list_ascii_of_string w)) (split_on sep s)
  /\ split_on sep s <> [].
Proof.
  split; [|split].
  - induction s as [|c s IH]; [reflexivity|]. cbn [split_on].
    destruct (split_on_cons sep s) as (w & ws & Hs). rewrite Hs in IH |- *.
    destruct (Ascii.eqb_spec c sep) as [->|Hne].
    + change (String.concat (String sep "") ("" :: w :: ws))%string
        with (String sep (String.concat (String sep "") (w :: ws))).
      rewrite IH. reflexivity.
    + destruct ws as [|w' ws].
      * change (w = s) in IH. rewrite IH. reflexivity.
      * rewrite <- IH. reflexivity.
  - induction s as [|c s IH]; cbn [split_on].
    + constructor; [intros []|constructor].
    + destruct (Ascii.eqb_spec c sep) as [->|Hne].
      * constructor; [intros []|exact IH].
      * destruct (split_on sep s) as [|w ws].
        -- constructor; [|constructor]. intros [H|[]]. congruence.
        -- apply Forall_cons in IH as [Hw Hws]. constructor; [|exact Hws].
           intros [H|H]; [congruence | exact (Hw H)].
  - destruct (split_on_cons sep s) as (w & ws & ->). discriminate.
Qed.

(** ** The dynamic optimizer lookup *)

Section LoaderFacts.
Variable importable : string -> bool.
Variable has_attr : list string -> string -> bool.
Variable callable_with : list string -> list string -> bool.

Lemma walk_attrs (comps : list string) (found : option (list string)) :
  foldl (fun found comp =>
           m ← found; if has_attr m comp then Some (m ++ [comp]) else None)
        found comps
  = m ← found; if attrs_present has_attr m comps then Some (m ++ comps) else None.
Proof.
  revert found. induction comps as [|comp rest IH]; intros found; cbn [foldl attrs_present].
  - destruct found as [m|]; cbn; [rewrite app_nil_r|]; reflexivity.
  - rewrite IH. destruct found as [m|]; [|reflexivity]. cbn [mbind option_bind].
    destruct (has_attr m comp); [|reflexivity]. cbn [mbind option_bind andb].
    rewrite <- app_assoc. reflexivity.
Qed.

(** X16. [load_class_from_module] returns the object the dotted name leads to
    when the first component can be imported and every further component is
    an attribute of the object reached before it, and fails otherwise. *)
Theorem load_class_from_module_path (module_name : string) :
  exists c0 comps,
    split_on "." module_name = c0 :: comps
    /\ load_class_from_module importable has_attr module_name
       = if importable c0 && attrs_present has_attr [c0] comps
         then Some (c0 :: comps) else None.
Proof.
  destruct (split_on_cons "." module_name) as (c0 & comps & Hs).
  exists c0, comps. split; [exact Hs|].
  unfold load_class_from_module. rewrite Hs.
  destruct (importable c0); [|reflexivity]. rewrite walk_attrs. reflexivity.
Qed.

Lemma optimizer_path_split (optimizer : string) :
  split_on "." ("tensorflow.keras.optimizers." +:+ optimizer)
  = keras_optimizers ++ split_on "." optimizer.
Proof. reflexivity. Qed.

(** X17. [load_optimizer] looks the name up below [tensorflow.keras.optimizers],
    component by component when the name itself holds dots, and calls what
    it finds with the learning rate as the keyword [lr]; it fails when a
    component is missing or the object cannot be called so. *)
Theorem load_optimizer_lookup (optimizer : string) (learning_rate : float) :
  let cls := keras_optimizers ++ split_on "." optimizer in
  load_optimizer importable has_attr callable_with optimizer learning_rate
  = if importable "tensorflow"
       && attrs_present has_attr ["tensorflow"%string] (["keras"; "optimizers"]%string ++ split_on "." optimizer)
       && callable_with cls ["lr"%string]
    then Some (OptimizerInstance cls [("lr"%string, learning_rate)])
    else None.
Proof.
  intros cls. unfold load_optimizer.
  destruct (load_class_from_module_path ("tensorflow.keras.optimizers." +:+ optimizer))
    as (c0 & comps & Hs & ->).
  rewrite optimizer_path_split in Hs. injection Hs as <- <-.
  destruct (importable "tensorflow" && _); [|reflexivity].
  cbn [mbind option_bind andb]. reflexivity.
Qed.

End LoaderFacts.

(** ** The parser and the model builders together *)

(** X19. What the parser produces with the default key list is what both model
    builders declare as their input: the dictionary key is the name of the
    input layer and the image shape is its shape; the label vector has as
    many entries as the classification model's last layer has units. *)
Theorem parser_feeds_models (r : gmap string feature)
    (out : gmap string (tensor Z) * tensor float) (a : args) :
  _parse_ r default_keylist = Some out ->
  exists image,
    out.1 !! "image"%string = Some image
    /\ head (m_layers (build_regression_model a)) = Some (InputLayer (shape image) "image")
    /\ shape out.2 = [NUM_CLASSES]
    /\ forall importable has_attr callable_with m,
         build_classification_model importable has_attr callable_with a = Some m ->
         head (m_layers m) = Some (InputLayer (shape image) "image")
         /\ last (m_layers m) = Some (Dense (Z.of_nat (length (data out.2))) softmax).
Proof.
  intros Hout.
  assert (Hsome : is_Some (_parse_ r default_keylist)) by (rewrite Hout; eauto).
  apply parse_succeeds_iff in Hsome as (Hwf & Hne & Hready).
  pose proof Hwf as Hwf'. apply well_formed_fields in Hwf' as [_ [l Hl]].
  destruct (parse_selected r default_keylist l Hwf Hl Hne Hready) as (image & Hp & Hsh & _).
  rewrite Hp in Hout. injection Hout as <-. cbn [fst snd].
  exists image. split; [apply lookup_singleton_eq|]. rewrite Hsh.
  split; [reflexivity|]. rewrite encode_label_scalar. split; [reflexivity|].
  intros importable has_attr callable_with m Hm. unfold build_classification_model in Hm.
  destruct (load_optimizer _ _ _ _ _) as [o|]; [|discriminate].
  cbn [mbind option_bind] in Hm. injection Hm as <-. cbn [m_layers data].
  rewrite length_one_hot_row. split; reflexivity.
Qed.

Lemma parser_feeds_models_witness :
  exists out image,
    _parse_ (sample_record 1) default_keylist = Some out
    /\ out.1 !! "image"%string = Some image
    /\ head (m_layers (build_regression_model default_args))
       = Some (InputLayer (shape image) "image")
    /\ shape out.2 = [NUM_CLASSES].
Proof.
  destruct (sample_record_parse 1) as (img & Hp & _).
  destruct (parser_feeds_models (sample_record 1) _ default_args Hp)
    as (image & H1 & H2 & H3 & _).
  eexists. exists image. split; [exact Hp|]. split; [exact H1|]. split; [exact H2 | exact H3].
Defined.
